(** * browser-use-js: agent control loop and DOM state synchronisation

  A shallow embedding of the parts of the repository that its
  specification makes claims about, and the proofs that settle them.

  The program, module by module:
  - [JsRegExp]              the two built-ins that redaction calls
  - [MessageManager]        class MessageManager (message manager service)
  - [Views]                 class DOMElementNode and its [hash] getter (dom/views.js)
  - [HistoryTreeProcessor]  class HistoryTreeProcessor
  - [DomService]            class DomService: _buildDomTree, _constructDomTree,
                            _parseNode
  - [Agent]                 class Agent: step, _handleStepError, multiAct

  The notions the statements use ([WindowSpec], [Scenarios], [BatchSpec]
  and the last definitions of [HistoryTreeProcessor] and [DomService])
  come next, and the proofs last.

  Conventions.  A JavaScript string is a [string] whose characters stand
  for code units; a JavaScript number that only ever holds an integer is
  a [Z]; [null]/[undefined] is [None]; a JavaScript object used as a
  dictionary is a [gmap] when only lookups matter and an association
  list when the order of [Object.entries] matters; a reference to a node
  object is the id it is stored under, or its position in a tree.  An
  exception is an explicit outcome next to the state the call leaves
  behind. *)

From Stdlib Require Import ZArith Lia Ascii String.
From stdpp Require Import base option list strings gmap sets pretty.

Local Open Scope Z_scope.

(* ===================================================================== *)
(** * The fragment of JavaScript's RegExp that redaction is traced on *)
(* ===================================================================== *)

(** [_redactSensitiveData] hands each sensitive value to
    [new RegExp(value, 'g')] and calls [String.prototype.replace].  This
    module gives those two built-ins on a fragment of the pattern
    language: ordinary characters, [.], the assertion [$], and the greedy
    quantifiers [*], [+], [?] on a single character.  A pattern with any
    other syntax character (or one that is a SyntaxError) is outside the
    fragment: [parsePattern] answers [None] and nothing is claimed. *)
Module JsRegExp.

Local Open Scope char_scope.

Inductive Atom := Lit (c : ascii) | AnyChar.
Inductive Quant := One | ZeroOrOne | ZeroOrMore | OneOrMore.
Inductive Item := Rep (a : Atom) (q : Quant) | EndOfInput.

Definition asciiEqb (a b : ascii) : bool := bool_decide (a = b).

(** The syntax characters this fragment does not give a meaning to at the
    place where an atom is expected. *)
Definition unsupportedAtom (c : ascii) : bool :=
  existsb (asciiEqb c)
    ["^"; "\"; "("; ")"; "["; "]"; "{"; "}"; "|"; "*"; "+"; "?"].

Definition atomOf (c : ascii) : Atom :=
  if asciiEqb c "." then AnyChar else Lit c.

Fixpoint parsePattern (s : string) : option (list Item) :=
  match s with
  | EmptyString => Some []
  | String c s' =>
      if unsupportedAtom c then None
      else if asciiEqb c "$" then cons EndOfInput <$> parsePattern s'
      else
        match s' with
        | String "*" s'' => cons (Rep (atomOf c) ZeroOrMore) <$> parsePattern s''
        | String "+" s'' => cons (Rep (atomOf c) OneOrMore) <$> parsePattern s''
        | String "?" s'' => cons (Rep (atomOf c) ZeroOrOne) <$> parsePattern s''
        | _ => cons (Rep (atomOf c) One) <$> parsePattern s'
        end
  end.

(** [.] matches any character but a line terminator. *)
Definition atomMatches (a : Atom) (c : ascii) : bool :=
  match a with
  | Lit d => asciiEqb c d
  | AnyChar => negb (asciiEqb c "010" || asciiEqb c "013")
  end.

(** Greedy repetition of [a] followed by the continuation [k]: as many
    characters as possible first, one fewer on failure.  The answer is
    the number of characters the whole match consumes. *)
Fixpoint matchStar (a : Atom) (k : string -> option nat) (s : string) : option nat :=
  match s with
  | String c s' =>
      if atomMatches a c then
        match matchStar a k s' with
        | Some n => Some (S n)
        | None => k s
        end
      else k s
  | EmptyString => k s
  end.

Definition matchOne (a : Atom) (k : string -> option nat) (s : string) : option nat :=
  match s with
  | String c s' => if atomMatches a c then S <$> k s' else None
  | EmptyString => None
  end.

(** A match of the pattern anchored at the head of [s], by backtracking
    in the order the language prescribes. *)
Fixpoint matchHere (p : list Item) : string -> option nat :=
  match p with
  | [] => fun _ => Some O
  | EndOfInput :: p' =>
      fun s => match s with EmptyString => matchHere p' s | _ => None end
  | Rep a q :: p' =>
      let k := matchHere p' in
      match q with
      | One => matchOne a k
      | ZeroOrOne =>
          fun s => match matchOne a k s with Some n => Some n | None => k s end
      | ZeroOrMore => matchStar a k
      | OneOrMore => matchOne a (matchStar a k)
      end
  end.

(** [s.replace(new RegExp(pattern, 'g'), replacement)] for a replacement
    without [$] patterns.  [skip] counts the characters of [s] that still
    belong to the last match.  After an empty match the scan copies one
    character and moves on; the end of the string is a position too. *)
Fixpoint replaceFrom (p : list Item) (replacement : string)
         (skip : nat) (s : string) : string :=
  match skip with
  | S skip' =>
      match s with
      | String _ s' => replaceFrom p replacement skip' s'
      | EmptyString => EmptyString
      end
  | O =>
      match matchHere p s with
      | Some (S n) =>
          match s with
          | String _ s' => replacement +:+ replaceFrom p replacement n s'
          | EmptyString => replacement
          end
      | Some O =>
          match s with
          | String c s' => replacement +:+ String c (replaceFrom p replacement O s')
          | EmptyString => replacement
          end
      | None =>
          match s with
          | String c s' => String c (replaceFrom p replacement O s')
          | EmptyString => EmptyString
          end
      end
  end.

Definition replaceAll (p : list Item) (replacement s : string) : string :=
  replaceFrom p replacement O s.

Fixpoint containsChar (c : ascii) (s : string) : bool :=
  match s with
  | EmptyString => false
  | String d s' => asciiEqb c d || containsChar c s'
  end.

(** A character that stands for itself in a pattern, and the pattern of
    a value made of such characters only. *)
Definition plainChar (c : ascii) : bool :=
  negb (unsupportedAtom c || asciiEqb c "$" || asciiEqb c ".").

Fixpoint plainString (s : string) : bool :=
  match s with
  | EmptyString => true
  | String c s' => plainChar c && plainString s'
  end.

Fixpoint literalPattern (v : string) : list Item :=
  match v with
  | EmptyString => []
  | String c v' => Rep (Lit c) One :: literalPattern v'
  end.

End JsRegExp.

(* ===================================================================== *)
(** * Message manager (service.js) *)
(* ===================================================================== *)

Module MessageManager.

Inductive Role := system | user | assistant.

(** One segment of a list-valued [content]: [{type:'text', text}],
    [{type:'image_url', image_url:{url}}], or a segment of another type.
    [text] may be missing on a text segment. *)
Inductive ContentPart :=
| TextPart (text : option string)
| ImagePart (url : string)
| OtherPart (type : string).

(** [message.content] is a string or an array of segments. *)
Inductive Content :=
| Str (s : string)
| Parts (ps : list ContentPart).

Record Message := { role : Role; content : Content }.

(** [MessageManagerState]. *)
Record State := {
  history : list Message;
  currentTokens : Z;
  maxTokens : Z
}.

(** Whether a call returned or threw (a [TypeError] on reading a
    property of [undefined]). *)
Inductive Outcome := Returned | Threw.

(** [Math.ceil(n / 4)] for a length [n]. *)
Definition ceilDiv4 (n : Z) : Z := (n + 3) / 4.

Definition strLength (s : string) : Z := Z.of_nat (String.length s).

(** [(part.text || '').length] *)
Definition partTextLength (t : option string) : Z :=
  match t with Some s => strLength s | None => 0 end.

(** [content.filter(p => p.type === 'text')
           .reduce((sum, p) => sum + Math.ceil((p.text || '').length / 4), 0)] *)
Fixpoint textTokens (ps : list ContentPart) : Z :=
  match ps with
  | [] => 0
  | TextPart t :: ps' => ceilDiv4 (partTextLength t) + textTokens ps'
  | _ :: ps' => textTokens ps'
  end.

(** [content.filter(p => p.type === 'image_url').length * 1000] *)
Fixpoint imageCount (ps : list ContentPart) : Z :=
  match ps with
  | [] => 0
  | ImagePart _ :: ps' => 1 + imageCount ps'
  | _ :: ps' => imageCount ps'
  end.

(** The estimate shared by [_addMessageWithTokens],
    [_removeLastStateMessage] and the loop of [cutMessages]. *)
Definition messageTokens (c : Content) : Z :=
  match c with
  | Str s => ceilDiv4 (strLength s)
  | Parts ps => textTokens ps + imageCount ps * 1000
  end.

(** [content.length]: the number of code units of a string, the number
    of segments of an array. *)
Definition contentLength (c : Content) : Z :=
  match c with
  | Str s => strLength s
  | Parts ps => Z.of_nat (length ps)
  end.

(** [_addMessageWithTokens(message)] *)
Definition _addMessageWithTokens (m : Message) (st : State) : State :=
  {| history := history st ++ [m];
     currentTokens := currentTokens st + messageTokens (content m);
     maxTokens := maxTokens st |}.

(** The [for (let i = history.length - 1; i >= 2; i--)] loop of
    [cutMessages], run over the messages beyond the first two taken
    newest first.  [kept] is [newHistory] without its two leading
    messages: [newHistory.splice(2, 0, message)] puts [message] in
    front of it. *)
Fixpoint cutLoop (maxT : Z) (newestFirst : list Message)
         (kept : list Message) (newTokens : Z) : list Message * Z :=
  match newestFirst with
  | [] => (kept, newTokens)
  | message :: older =>
      let messageTok := messageTokens (content message) in
      if bool_decide (newTokens + messageTok > maxT)
      then cutLoop maxT older kept newTokens
      else cutLoop maxT older (message :: kept) (newTokens + messageTok)
  end.

(** [cutMessages()].  The two leading messages are costed by
    [Math.ceil(content.length / 4)], whatever their content is. *)
Definition cutMessages (st : State) : State * Outcome :=
  if bool_decide (currentTokens st <= maxTokens st) then (st, Returned)
  else
    match history st with
    | systemMessage :: taskMessage :: rest =>
        let newTokens := ceilDiv4 (contentLength (content systemMessage))
                         + ceilDiv4 (contentLength (content taskMessage)) in
        let '(kept, newTokens) := cutLoop (maxTokens st) (rev rest) [] newTokens in
        ({| history := systemMessage :: taskMessage :: kept;
            currentTokens := newTokens;
            maxTokens := maxTokens st |}, Returned)
    | _ => (st, Threw)
    end.

(** [addPlan(plan, position = -1)].  A [null] or empty plan is falsy.
    [history.splice(position, 0, message)] inserts before index
    [position]; a negative [position] counts from the end and a
    position outside the array is clamped. *)
Definition spliceIndex (position : Z) (len : nat) : nat :=
  if bool_decide (position < 0)
  then Z.to_nat (Z.max 0 (Z.of_nat len + position))
  else Nat.min (Z.to_nat position) len.

Definition addPlan (plan : option string) (position : Z) (st : State) : State :=
  match plan with
  | None => st
  | Some "" => st
  | Some p =>
      let message := {| role := user; content := Str ("Plan: " +:+ p) |} in
      if bool_decide (position = -1) then _addMessageWithTokens message st
      else
        let tokens := ceilDiv4 (contentLength (content message)) in
        let k := spliceIndex position (length (history st)) in
        {| history := take k (history st) ++ message :: drop k (history st);
           currentTokens := currentTokens st + tokens;
           maxTokens := maxTokens st |}
  end.

(** [addModelOutput(modelOutput)], with [JSON.stringify(modelOutput)]
    given. *)
Definition addModelOutput (json : string) (st : State) : State :=
  _addMessageWithTokens {| role := assistant; content := Str json |} st.

(** [addNewTask(newTask)] *)
Definition addNewTask (newTask : string) (st : State) : State :=
  _addMessageWithTokens
    {| role := user; content := Str ("New task: " +:+ newTask) |} st.

(** [MessageManagerSettings]: the fields the modelled methods read.
    [sensitiveData] lists the entries of the object in the order of
    [Object.entries]. *)
Record Settings := {
  maxInputTokens : Z;
  messageContext : option string;
  sensitiveData : option (list (string * string));
  availableFilePaths : option (list string)
}.

(** A [MessageManager]: its settings and its state. *)
Record Manager := {
  settings : Settings;
  state : State
}.

Definition withState (mm : Manager) (st : State) : Manager :=
  {| settings := settings mm; state := st |}.

(** [_initializeHistory()] *)
Definition taskContent (task : string) (s : Settings) : string :=
  let base := "Task: " +:+ task in
  let withContext :=
    match messageContext s with
    | Some ctx => if bool_decide (ctx = "") then base
                  else base +:+ String "010" (String "010" ctx)
    | None => base
    end in
  match availableFilePaths s with
  | Some (f :: fs) =>
      foldl (fun acc filePath => acc +:+ String "010" ("- " +:+ filePath))
            (withContext +:+ String "010" (String "010" "Available files:"))
            (f :: fs)
  | _ => withContext
  end.

Definition _initializeHistory (task : string) (systemMessage : Message)
           (s : Settings) (st : State) : State :=
  _addMessageWithTokens {| role := user; content := Str (taskContent task s) |}
    (_addMessageWithTokens systemMessage st).

(** [new MessageManager({task, systemMessage, settings, state})] *)
Definition newMessageManager (task : string) (systemMessage : Message)
           (s : Settings) (st : State) : Manager :=
  let st1 := match history st with
             | [] => _initializeHistory task systemMessage s st
             | _ => st
             end in
  {| settings := s;
     state := {| history := history st1;
                 currentTokens := currentTokens st1;
                 maxTokens := maxInputTokens s |} |}.

(** [new MessageManagerState()] *)
Definition emptyState : State :=
  {| history := []; currentTokens := 0; maxTokens := 0 |}.

(** [_removeLastStateMessage()] *)
Definition _removeLastStateMessage (st : State) : State :=
  match last (history st) with
  | Some lastMessage =>
      match role lastMessage with
      | user =>
          {| history := removelast (history st);
             currentTokens := currentTokens st - messageTokens (content lastMessage);
             maxTokens := maxTokens st |}
      | _ => st
      end
  | None => st
  end.

(** The string branch of [_redactSensitiveData]: one [replace] per entry
    with a non-empty value, each on the result of the one before.
    [None]: the value, read as a pattern, is outside the modelled
    fragment, or the key would make the replacement a [$] pattern. *)
Fixpoint redactString (entries : list (string * string)) (redacted : string)
  : option string :=
  match entries with
  | [] => Some redacted
  | (key, value) :: entries' =>
      if bool_decide (value = "") then redactString entries' redacted
      else if JsRegExp.containsChar "$" key then None
      else
        match JsRegExp.parsePattern value with
        | Some regex =>
            redactString entries'
              (JsRegExp.replaceAll regex ("[REDACTED:" +:+ key +:+ "]") redacted)
        | None => None
        end
  end.

(** The array branch: text segments are redacted, the others kept. *)
Fixpoint redactParts (entries : list (string * string)) (ps : list ContentPart)
  : option (list ContentPart) :=
  match ps with
  | [] => Some []
  | TextPart (Some t) :: ps' =>
      match redactString entries t, redactParts entries ps' with
      | Some t', Some r => Some (TextPart (Some t') :: r)
      | _, _ => None
      end
  | part :: ps' => cons part <$> redactParts entries ps'
  end.

(** [_redactSensitiveData(content)] *)
Definition _redactSensitiveData (s : Settings) (c : Content) : option Content :=
  match sensitiveData s with
  | None => Some c
  | Some entries =>
      match c with
      | Str str => Str <$> redactString entries str
      | Parts ps => Parts <$> redactParts entries ps
      end
  end.

(** [addStateMessage(state, result, stepInfo, useVision)], from the
    message that [AgentMessagePrompt.getUserMessage] built. *)
Definition addStateMessage (message : Message) (mm : Manager) : option Manager :=
  match sensitiveData (settings mm) with
  | Some _ =>
      c ← _redactSensitiveData (settings mm) (content message);
      Some (withState mm
              (_addMessageWithTokens {| role := role message; content := c |}
                                     (state mm)))
  | None => Some (withState mm (_addMessageWithTokens message (state mm)))
  end.

End MessageManager.

(* ===================================================================== *)
(** * DOM views (dom/views.js, dom/history_tree_processor/view.js) *)
(* ===================================================================== *)

Module Views.

(** The own fields of a [DOMElementNode] that the modelled functions read.
    The geometry fields ([viewportCoordinates], [pageCoordinates],
    [viewportInfo]) are carried along by the source and read by none of
    them; they are left out.  [highlightIndex] is [null] or a number. *)
Record ElementData := {
  isVisible : bool;
  tagName : string;
  xpath : string;
  attributes : list (string * string);
  isInteractive : bool;
  isTopElement : bool;
  isInViewport : bool;
  shadowRoot : bool;
  highlightIndex : option Z
}.

(** A node with the subtree it owns.  The [parent] back-reference of the
    source is the context a node is reached in. *)
#[warnings="-register-all"]
Inductive DOMNode :=
| DOMTextNode (visible : bool) (text : string)
| DOMElementNode (e : ElementData) (children : list DOMNode).

(** [HashedDomElement] *)
Record HashedDomElement := {
  branchPathHash : string;
  attributesHash : string;
  xpathHash : string
}.

(** [new DOMElementNode()], the constructor without arguments. *)
Definition defaultElement : ElementData :=
  {| isVisible := false; tagName := "div"; xpath := ""; attributes := [];
     isInteractive := false; isTopElement := false; isInViewport := false;
     shadowRoot := false; highlightIndex := None |}.

(** [get hash()] of [DOMElementNode]: the placeholder [hashDomElement]
    defined inside the getter. *)
Definition hash (e : ElementData) (children : list DOMNode) : HashedDomElement :=
  {| branchPathHash :=
       "branch-" +:+ tagName e +:+ "-" +:+ pretty (length children);
     attributesHash := "attr-" +:+ String.concat "-" (map fst (attributes e));
     xpathHash := "xpath-" +:+ xpath e |}.

(** [e.hash?.branchPathHash] on a value of a selector map: a text node
    has no [hash]. *)
Definition branchPathHashOf (n : DOMNode) : option string :=
  match n with
  | DOMElementNode e children => Some (branchPathHash (hash e children))
  | DOMTextNode _ _ => None
  end.

(** Induction on a node with the hypothesis for every child. *)
Fixpoint DOMNode_forall_ind (P : DOMNode -> Prop)
         (Htext : forall visible text, P (DOMTextNode visible text))
         (Helement : forall e children, Forall P children -> P (DOMElementNode e children))
         (n : DOMNode) {struct n} : P n :=
  match n with
  | DOMTextNode visible text => Htext visible text
  | DOMElementNode e children =>
      Helement e children
        ((fix all (cs : list DOMNode) : Forall P cs :=
            match cs with
            | [] => @List.Forall_nil _ P
            | c :: cs' =>
                @List.Forall_cons _ P c cs' (DOMNode_forall_ind P Htext Helement c) (all cs')
            end) children)
  end.

End Views.

(* ===================================================================== *)
(** * History tree processor (dom/history_tree_processor/service.js) *)
(* ===================================================================== *)

Module HistoryTreeProcessor.
Import Views.

(** [DOMHistoryElement], without the geometry fields. *)
Record DOMHistoryElement := {
  h_tagName : string;
  h_xpath : string;
  h_highlightIndex : option Z;
  entireParentBranchPath : list string;
  h_attributes : list (string * string);
  h_shadowRoot : bool;
  cssSelector : option string
}.

(** A position in a tree: the child numbers from the root down.  It
    stands for the reference to the node at that place. *)
Definition Position := list nat.

(** [`${current.tagName}:${current.highlightIndex !== null ?
      current.highlightIndex : 'null'}`] *)
Definition branchEntry (e : ElementData) : string :=
  tagName e +:+ ":" +:+
  match highlightIndex e with Some i => pretty i | None => "null" end.

(** [_getParentBranchPath(domElement)]: the walk along [parent] up to the
    root, each entry put in front.  [ancestors] is the chain of the
    element's ancestors, the root first. *)
Definition _getParentBranchPath (ancestors : list ElementData) (e : ElementData)
  : list string :=
  map branchEntry (ancestors ++ [e]).

(** [Array.prototype.sort] on the keys, by code units. *)
Fixpoint insertKey (k : string) (sorted : list string) : list string :=
  match sorted with
  | [] => [k]
  | x :: sorted' => if String.leb k x then k :: sorted else x :: insertKey k sorted'
  end.

Definition sortKeys (keys : list string) : list string := foldr insertKey [] keys.

(** [attributes[key]] *)
Fixpoint attributeValue (key : string) (attrs : list (string * string)) : string :=
  match attrs with
  | [] => "undefined"
  | (k, v) :: attrs' => if String.eqb k key then v else attributeValue key attrs'
  end.

Definition dquote : string := String "034" EmptyString.

(** [enhancedCssSelectorForElement] as [convertDomElementToHistoryElement]
    defines it. *)
Definition enhancedCssSelectorForElement (e : ElementData) : string :=
  tagName e +:+
  match highlightIndex e with
  | Some i => "[data-highlight=" +:+ dquote +:+ pretty i +:+ dquote +:+ "]"
  | None => ""
  end.

(** [convertDomElementToHistoryElement(domElement)] *)
Definition convertDomElementToHistoryElement
           (ancestors : list ElementData) (e : ElementData) : DOMHistoryElement :=
  {| h_tagName := tagName e;
     h_xpath := xpath e;
     h_highlightIndex := highlightIndex e;
     entireParentBranchPath := _getParentBranchPath ancestors e;
     h_attributes := attributes e;
     h_shadowRoot := shadowRoot e;
     cssSelector := Some (enhancedCssSelectorForElement e) |}.

Section Hashing.

(** [_createHash]: the hex MD5 digest of a string. *)
Variable _createHash : string -> string.

Definition _parentBranchPathHash (parentBranchPath : list string) : string :=
  _createHash (String.concat "->" parentBranchPath).

Definition _attributesHash (attrs : list (string * string)) : string :=
  _createHash
    (String.concat ";"
       (map (fun key => key +:+ ":" +:+ attributeValue key attrs)
            (sortKeys (map fst attrs)))).

Definition _xpathHash (xp : string) : string := _createHash xp.

Definition _hashDomHistoryElement (h : DOMHistoryElement) : HashedDomElement :=
  {| branchPathHash := _parentBranchPathHash (entireParentBranchPath h);
     attributesHash := _attributesHash (h_attributes h);
     xpathHash := _xpathHash (h_xpath h) |}.

Definition _hashDomElement (ancestors : list ElementData) (e : ElementData)
  : HashedDomElement :=
  {| branchPathHash := _parentBranchPathHash (_getParentBranchPath ancestors e);
     attributesHash := _attributesHash (attributes e);
     xpathHash := _xpathHash (xpath e) |}.

(** The three [===] comparisons. *)
Definition sameHashes (a b : HashedDomElement) : bool :=
  bool_decide (branchPathHash a = branchPathHash b)
  && bool_decide (attributesHash a = attributesHash b)
  && bool_decide (xpathHash a = xpathHash b).

(** [compareHistoryElementAndDomElement] *)
Definition compareHistoryElementAndDomElement
           (h : DOMHistoryElement) (ancestors : list ElementData) (e : ElementData)
  : bool :=
  sameHashes (_hashDomHistoryElement h) (_hashDomElement ancestors e).

(** [processNode] inside [findHistoryElementInTree].  [ancestors] and
    [pos] say where [node] stands; the answer is the node found and its
    position.  The loop skips the children that are not element nodes, so
    the text case is never entered from it. *)
Fixpoint processNode (hashed : HashedDomElement) (ancestors : list ElementData)
         (pos : Position) (node : DOMNode) {struct node}
  : option (Position * DOMNode) :=
  match node with
  | DOMTextNode _ _ => None
  | DOMElementNode e children =>
      if bool_decide (highlightIndex e <> None)
         && sameHashes (_hashDomElement ancestors e) hashed
      then Some (pos, node)
      else
        (fix loop (cs : list DOMNode) (k : nat) {struct cs}
           : option (Position * DOMNode) :=
           match cs with
           | [] => None
           | child :: cs' =>
               match child with
               | DOMElementNode _ _ =>
                   match processNode hashed (ancestors ++ [e]) (pos ++ [k]) child with
                   | Some result => Some result
                   | None => loop cs' (S k)
                   end
               | DOMTextNode _ _ => loop cs' (S k)
               end
           end) children O
  end.

(** [findHistoryElementInTree(domHistoryElement, tree)], [tree] being a
    root (its [parent] is [null]). *)
Definition findHistoryElementInTree (h : DOMHistoryElement) (tree : DOMNode)
  : option (Position * DOMNode) :=
  processNode (_hashDomHistoryElement h) [] [] tree.

(** The loop of [processNode] over the children [cs], the first of which
    is child number [k] of the element [e]. *)
Fixpoint processChildren (hashed : HashedDomElement) (ancestors : list ElementData)
         (pos : Position) (cs : list DOMNode) (k : nat)
  : option (Position * DOMNode) :=
  match cs with
  | [] => None
  | child :: cs' =>
      match child with
      | DOMElementNode _ _ =>
          match processNode hashed ancestors (pos ++ [k]) child with
          | Some result => Some result
          | None => processChildren hashed ancestors pos cs' (S k)
          end
      | DOMTextNode _ _ => processChildren hashed ancestors pos cs' (S k)
      end
  end.

(** An indexed node of the tree has the three hashes looked for. *)
Definition matchesAt (hashed : HashedDomElement)
           (entry : list ElementData * Position * DOMNode) : bool :=
  match entry with
  | (ancestors, _, DOMElementNode e _) => sameHashes (_hashDomElement ancestors e) hashed
  | (_, _, DOMTextNode _ _) => false
  end.

End Hashing.

(** The element nodes of a tree that carry a highlight index, in document
    order (a node before its children, children left to right), each with
    its ancestors and its position. *)
Fixpoint indexedNodes (ancestors : list ElementData) (pos : Position)
         (node : DOMNode) {struct node}
  : list (list ElementData * Position * DOMNode) :=
  match node with
  | DOMTextNode _ _ => []
  | DOMElementNode e children =>
      (if bool_decide (highlightIndex e <> None)
       then [(ancestors, pos, node)] else [])
      ++ (fix walk (cs : list DOMNode) (k : nat) {struct cs} :=
            match cs with
            | [] => []
            | child :: cs' =>
                indexedNodes (ancestors ++ [e]) (pos ++ [k]) child ++ walk cs' (S k)
            end) children O
  end.

(** The node at a position, with the chain of its ancestors. *)
Fixpoint nodeAt (ancestors : list ElementData) (node : DOMNode) (pos : Position)
  : option (list ElementData * DOMNode) :=
  match pos with
  | [] => Some (ancestors, node)
  | k :: pos' =>
      match node with
      | DOMElementNode e children =>
          match children !! k with
          | Some child => nodeAt (ancestors ++ [e]) child pos'
          | None => None
          end
      | DOMTextNode _ _ => None
      end
  end.

(** [indexedNodes] of the children [cs], the first of which is child
    number [k]. *)
Fixpoint indexedChildren (ancestors : list ElementData) (pos : Position)
         (cs : list DOMNode) (k : nat)
  : list (list ElementData * Position * DOMNode) :=
  match cs with
  | [] => []
  | child :: cs' =>
      indexedNodes ancestors (pos ++ [k]) child
      ++ indexedChildren ancestors pos cs' (S k)
  end.

(** What the caller of [findHistoryElementInTree] holds: the place and
    the node, without the ancestors. *)
Definition located (entry : list ElementData * Position * DOMNode)
  : Position * DOMNode :=
  (entry.1.2, entry.2).

(** A tree with a single node, which carries no index. *)
Definition bareRoot : ElementData :=
  {| isVisible := true; tagName := "body"; xpath := "/html/body"; attributes := [];
     isInteractive := false; isTopElement := true; isInViewport := true;
     shadowRoot := false; highlightIndex := None |}.

(** Two links told apart by their visibility only, in one list. *)
Definition twinLink (visible : bool) : ElementData :=
  {| isVisible := visible; tagName := "a"; xpath := "/html/body/ul/li/a";
     attributes := [("href", "/next")]; isInteractive := true;
     isTopElement := true; isInViewport := true; shadowRoot := false;
     highlightIndex := Some 0 |}.

Definition twinTree : DOMNode :=
  DOMElementNode bareRoot
    [DOMElementNode (twinLink true) []; DOMElementNode (twinLink false) []].

(** A page with a form: a field and a button, both indexed. *)
Definition formField : ElementData :=
  {| isVisible := true; tagName := "input"; xpath := "/html/body/form/input";
     attributes := [("type", "text"); ("name", "q")]; isInteractive := true;
     isTopElement := true; isInViewport := true; shadowRoot := false;
     highlightIndex := Some 0 |}.

Definition formButton : ElementData :=
  {| isVisible := true; tagName := "button"; xpath := "/html/body/form/button";
     attributes := [("type", "submit")]; isInteractive := true;
     isTopElement := true; isInViewport := true; shadowRoot := false;
     highlightIndex := Some 1 |}.

Definition formElement : ElementData :=
  {| isVisible := true; tagName := "form"; xpath := "/html/body/form";
     attributes := []; isInteractive := false; isTopElement := true;
     isInViewport := true; shadowRoot := false; highlightIndex := None |}.

Definition formTree : DOMNode :=
  DOMElementNode bareRoot
    [DOMTextNode true "Search";
     DOMElementNode formElement
       [DOMElementNode formField [];
        DOMElementNode formButton [DOMTextNode true "Go"]]].

End HistoryTreeProcessor.

(* ===================================================================== *)
(** * DOM service: building a snapshot from the page's node graph *)
(* ===================================================================== *)

Module DomService.
Import Views.

(** One value of [evalPage.map]: the raw description of a node.  A field
    that is [None] is missing ([undefined]) or [null]. *)
Record NodeData := {
  nd_type : option string;
  nd_text : option string;
  nd_isVisible : option bool;
  nd_tagName : option string;
  nd_xpath : option string;
  nd_attributes : option (list (string * string));
  nd_children : option (list string);
  nd_isInteractive : option bool;
  nd_isTopElement : option bool;
  nd_isInViewport : option bool;
  nd_shadowRoot : option bool;
  nd_highlightIndex : option Z
}.

(** The payload of the in-page probe.  [map] lists the entries of the
    node object in the order of [Object.entries]; its keys, the ids of
    the nodes, are strings and distinct, and an empty id is falsy.  A
    value may be [null]. *)
Record EvalPage := {
  map : option (list (string * option NodeData));
  rootId : option string
}.

(** What a freshly built node is; its links are kept in [HeapNode]. *)
Inductive NodeKind :=
| TextKind (visible : bool) (text : string)
| ElementKind (e : ElementData).

(** A node object of [nodeMap].  Objects refer to each other by the
    property name under which [nodeMap] gives them: [parent] and the
    entries of [children] are such names.  A name under which a node is
    stored stands for that node; any other name that occurs stands for
    the member of [Object.prototype] that [nodeMap] inherits under it
    (see [inherited]).  A text node starts without [children]; the wiring
    loop gives it an empty array before the first push, which the empty
    list stands for. *)
Record HeapNode := {
  kind : NodeKind;
  parent : option string;
  children : list string
}.

(** The first component of the pair a build returns. *)
Inductive Root :=
| FreshRoot (e : ElementData)   (* a new node, outside [nodeMap] *)
| RootRef (id : string)         (* [nodeMap[jsRootId]], a stored node *)
| RootInherited (name : string) (* [nodeMap[jsRootId]], inherited *)
| RootUndefined.                (* [nodeMap[jsRootId]] is [undefined] *)

(** A built snapshot: the root, the node objects, and the selector map
    from a highlight index to the node stored under it. *)
Record Snapshot := {
  root : Root;
  heap : gmap string HeapNode;
  selectorMap : gmap Z string
}.

(** The white space that [String.prototype.trim] removes, among the code
    units below 256. *)
Definition isWhiteSpace (c : ascii) : bool :=
  existsb (fun d => bool_decide (c = d))
    ["009"; "010"; "011"; "012"; "013"; " "; "160"]%char.

(** [text.trim() === ''] *)
Fixpoint isBlank (s : string) : bool :=
  match s with
  | EmptyString => true
  | String c s' => isWhiteSpace c && isBlank s'
  end.

(** [x || false], [x || ''], [x || []], [x || {}] *)
Definition orFalse (b : option bool) : bool := default false b.
Definition orEmpty (s : option string) : string := default EmptyString s.

(** [_parseNode(nodeData)] for a [nodeData] that is not [null]. *)
Definition _parseNode (nodeData : NodeData) : option NodeKind * list string :=
  let childrenIds := default [] (nd_children nodeData) in
  if bool_decide (nd_type nodeData = Some "TEXT_NODE") then
    match nd_text nodeData with
    | Some text =>
        if isBlank text then (None, childrenIds)
        else (Some (TextKind (orFalse (nd_isVisible nodeData)) text), childrenIds)
    | None => (None, childrenIds)
    end
  else
    (Some (ElementKind
             {| isVisible := orFalse (nd_isVisible nodeData);
                tagName := orEmpty (nd_tagName nodeData);
                xpath := orEmpty (nd_xpath nodeData);
                attributes := default [] (nd_attributes nodeData);
                isInteractive := orFalse (nd_isInteractive nodeData);
                isTopElement := orFalse (nd_isTopElement nodeData);
                isInViewport := orFalse (nd_isInViewport nodeData);
                shadowRoot := orFalse (nd_shadowRoot nodeData);
                highlightIndex := nd_highlightIndex nodeData |}),
     childrenIds).

(** The highlight index of a node object, [null] on a text node. *)
Definition indexOf (n : HeapNode) : option Z :=
  match kind n with
  | ElementKind e => highlightIndex e
  | TextKind _ _ => None
  end.

(** One turn of the first loop: build the node, store it, and enter it
    in the selector map when it carries an index. *)
Definition createNode (acc : gmap string HeapNode * gmap Z string)
           (entry : string * option NodeData)
  : gmap string HeapNode * gmap Z string :=
  let '(nodeMap, selMap) := acc in
  let '(id, nodeData) := entry in
  match nodeData with
  | None => acc
  | Some nd =>
      match fst (_parseNode nd) with
      | None => acc
      | Some k =>
          let node := {| kind := k; parent := None; children := [] |} in
          (<[id := node]> nodeMap,
           match indexOf node with
           | Some h => <[h := id]> selMap
           | None => selMap
           end)
      end
  end.

(** [nodeMap] and [jsNodeMap] are plain objects: a read under a name
    they have no property of their own for goes on to [Object.prototype],
    which answers under these names with its functions and, under
    [__proto__], with itself.  All of these are objects, hence truthy.
    What the second loop writes on such an object ([parent], [children])
    is kept on that object and is not part of the snapshot.  The model
    follows one call; it leaves out what a write through [__proto__] (a
    node stored under it, or [parent] and [children] written on
    [Object.prototype] itself) changes for the reads that come after
    it. *)
Definition objectPrototype : list string :=
  ["constructor"; "__defineGetter__"; "__defineSetter__"; "hasOwnProperty";
   "__lookupGetter__"; "__lookupSetter__"; "isPrototypeOf"; "propertyIsEnumerable";
   "toString"; "valueOf"; "__proto__"; "toLocaleString"].

Definition inherited (name : string) : bool :=
  bool_decide (name ∈ objectPrototype).

(** [nodeMap[name]] as a condition: a stored node, or an inherited
    member. *)
Definition resolves (nodeMap : gmap string HeapNode) (name : string) : bool :=
  bool_decide (is_Some (nodeMap !! name)) || inherited name.

Definition setParent (p : string) (n : HeapNode) : HeapNode :=
  {| kind := kind n; parent := Some p; children := children n |}.

Definition pushChild (c : string) (n : HeapNode) : HeapNode :=
  {| kind := kind n; parent := parent n; children := children n ++ [c] |}.

(** One turn of the inner loop of the second pass: [id] is the name of
    [node], [childId] that of [childNode].  The two writes change the
    stored nodes among them. *)
Definition linkChild (id : string) (nodeMap : gmap string HeapNode)
           (childId : string) : gmap string HeapNode :=
  if bool_decide (childId = "") then nodeMap
  else if resolves nodeMap childId
       then alter (pushChild childId) id (alter (setParent id) childId nodeMap)
       else nodeMap.

(** One turn of the second loop. *)
Definition wireNode (nodeMap : gmap string HeapNode)
           (entry : string * option NodeData) : gmap string HeapNode :=
  let '(id, nodeData) := entry in
  match nodeData with
  | None => nodeMap
  | Some nd =>
      match nd_children nd with
      | None => nodeMap
      | Some childIds =>
          if resolves nodeMap id
          then foldl (linkChild id) nodeMap childIds
          else nodeMap
      end
  end.

(** [jsNodeMap[id]] *)
Fixpoint entryOf (id : string) (entries : list (string * option NodeData))
  : option NodeData :=
  match entries with
  | [] => None
  | (k, v) :: entries' => if String.eqb k id then v else entryOf id entries'
  end.

(** [jsNodeMap[id]] as a condition: the value of the entry when the
    object has one under [id], an inherited member otherwise. *)
Definition hasEntry (id : string) (entries : list (string * option NodeData)) : bool :=
  match entryOf id entries with
  | Some _ => true
  | None => negb (bool_decide (id ∈ entries.*1)) && inherited id
  end.

(** The node both early returns build. *)
Definition placeholderBody : ElementData :=
  {| isVisible := false; tagName := "body"; xpath := "//body"; attributes := [];
     isInteractive := false; isTopElement := false; isInViewport := false;
     shadowRoot := false; highlightIndex := None |}.

(** [_constructDomTree(evalPage)] *)
Definition _constructDomTree (evalPage : option EvalPage) : Snapshot :=
  let invalid := {| root := FreshRoot placeholderBody; heap := ∅; selectorMap := ∅ |} in
  match evalPage with
  | None => invalid
  | Some ep =>
      match map ep, rootId ep with
      | Some jsNodeMap, Some jsRootId =>
          if bool_decide (jsRootId = "") then invalid
          else
            let '(nodeMap1, selMap) := foldl createNode (∅, ∅) jsNodeMap in
            let nodeMap := foldl wireNode nodeMap1 jsNodeMap in
            if hasEntry jsRootId jsNodeMap
            then {| root := match nodeMap !! jsRootId with
                            | Some _ => RootRef jsRootId
                            | None => if inherited jsRootId
                                      then RootInherited jsRootId
                                      else RootUndefined
                            end;
                    heap := nodeMap;
                    selectorMap := selMap |}
            else {| root := FreshRoot placeholderBody; heap := nodeMap;
                    selectorMap := selMap |}
      | _, _ => invalid
      end
  end.

(** What [page.evaluate] of the probe gave: a payload, or an
    exception. *)
Inductive Evaluation := EvalThrew | EvalValue (evalPage : option EvalPage).

(** [_buildDomTree]: [sanity] is what [page.evaluate('1+1')] gave
    ([None] when it threw). *)
Definition _buildDomTree (sanity : option Z) (probe : Evaluation) : Snapshot :=
  let fallback := {| root := FreshRoot defaultElement; heap := ∅; selectorMap := ∅ |} in
  match sanity with
  | Some 2 =>
      match probe with
      | EvalValue evalPage => _constructDomTree evalPage
      | EvalThrew => fallback
      end
  | _ => fallback
  end.

(** A payload is malformed when it is absent, has no node map, or has no
    root id (none, or an empty one). *)
Definition malformed (evalPage : option EvalPage) : bool :=
  match evalPage with
  | None => true
  | Some ep =>
      match map ep, rootId ep with
      | Some _, Some r => bool_decide (r = "")
      | _, _ => true
      end
  end.

(** The nodes of the returned tree: the root, and the children of a node
    of the tree. *)
Inductive reachable (s : Snapshot) : string -> Prop :=
| reach_root id :
    root s = RootRef id -> reachable s id
| reach_child p n c :
    reachable s p -> heap s !! p = Some n -> c ∈ children n -> reachable s c.

(** The selector map read as the claimed bijection: each key leads to a
    node of the tree that carries the key as its index, and each indexed
    node of the tree is the one stored under its index. *)
Definition selectorBijection (s : Snapshot) : Prop :=
  (forall h id, selectorMap s !! h = Some id ->
     reachable s id /\ exists n, heap s !! id = Some n /\ indexOf n = Some h)
  /\ (forall id n h, reachable s id -> heap s !! id = Some n -> indexOf n = Some h ->
        selectorMap s !! h = Some id).




(** The raw description of an element node. *)
Definition elementData (tag xp : string) (childIds : list string)
           (index : option Z) : NodeData :=
  {| nd_type := Some "ELEMENT_NODE"; nd_text := None; nd_isVisible := Some true;
     nd_tagName := Some tag; nd_xpath := Some xp; nd_attributes := Some [];
     nd_children := Some childIds; nd_isInteractive := Some true;
     nd_isTopElement := Some true; nd_isInViewport := Some true;
     nd_shadowRoot := None; nd_highlightIndex := index |}.

Definition textData (t : string) : NodeData :=
  {| nd_type := Some "TEXT_NODE"; nd_text := Some t; nd_isVisible := Some true;
     nd_tagName := None; nd_xpath := None; nd_attributes := None;
     nd_children := None; nd_isInteractive := None; nd_isTopElement := None;
     nd_isInViewport := None; nd_shadowRoot := None; nd_highlightIndex := None |}.

(** The specification's scenario: a body with a button of index 0 and
    the text "Hello". *)
Definition helloPage : EvalPage :=
  {| map := Some [("1", Some (elementData "body" "/body" ["2"; "3"] None));
                  ("2", Some (elementData "button" "/body/button" [] (Some 0)));
                  ("3", Some (textData "Hello"))];
     rootId := Some "1" |}.

Definition helloSnapshot : Snapshot := _constructDomTree (Some helloPage).


(** A payload in which two buttons of the tree claim index 0. *)
Definition clashPage : EvalPage :=
  {| map := Some [("1", Some (elementData "body" "/body" ["2"; "3"] None));
                  ("2", Some (elementData "button" "/body/button[1]" [] (Some 0)));
                  ("3", Some (elementData "button" "/body/button[2]" [] (Some 0)))];
     rootId := Some "1" |}.

(** A payload whose body lists a child under the name of a member of
    [Object.prototype]. *)
Definition inheritedChildPage : EvalPage :=
  {| map := Some [("1", Some (elementData "body" "/body" ["toString"; "2"] None));
                  ("2", Some (textData "Hello"))];
     rootId := Some "1" |}.

(** A payload without a node map. *)
Definition noMapPage : EvalPage := {| map := None; rootId := Some "1" |}.

End DomService.

(* ===================================================================== *)
(** * Agent service: action dispatch, planning cadence, step errors *)
(* ===================================================================== *)

Module Agent.
Import Views.

(** [ActionResult]; an absent text is [null]. *)
Record ActionResult := {
  isDone : bool;
  success : option bool;
  extractedContent : option string;
  error : option string;
  includeInMemory : bool
}.

(** [new ActionResult({ extractedContent: msg, includeInMemory: true })] *)
Definition infoResult (msg : string) : ActionResult :=
  {| isDone := false; success := None; extractedContent := Some msg;
     error := None; includeInMemory := true |}.

(** [new ActionResult({ error: msg, includeInMemory: true })] *)
Definition errorResult (msg : string) : ActionResult :=
  {| isDone := false; success := None; extractedContent := None;
     error := Some msg; includeInMemory := true |}.

(** An action of a batch.  [getIndex] is [None] when the action has no
    such accessor, and otherwise what calling it gives ([null] or an
    index).  [actionType] is what the action model resolves the action
    to; an empty one is falsy. *)
Record Action := {
  getIndex : option (option Z);
  actionType : string;
  actionParams : string
}.

(** An instance of the [DynamicActionModel] class that
    [registry.createActionModel()] returns, in which [AgentOutput] and
    [multiAct] wrap every action (controller/registry/service.js).  The
    class defines [modelDump] and [validate]; its constructor sets
    [actionType] and [actionParams] and copies the properties of the
    parameters ([index], [text], [url], ...) onto the instance.  Neither
    gives the instance a [getIndex]. *)
Definition DynamicActionModel (type params : string) : Action :=
  {| getIndex := None; actionType := type; actionParams := params |}.

(** [results[results.length - 1].error] as a condition. *)
Definition truthy (s : option string) : bool :=
  match s with
  | Some t => negb (bool_decide (t = ""))
  | None => false
  end.

(** [new Set(Object.values(selectorMap)
              .map(e => e.hash?.branchPathHash).filter(Boolean))] *)
Definition pathHashes (selectorMap : gmap Z DOMNode) : gset string :=
  list_to_set
    (filter (fun h => h <> "")
            (omap (fun entry => branchPathHashOf (snd entry))
                  (map_to_list selectorMap))).

(** [_isSubset(a, b)] *)
Definition _isSubset (a b : gset string) : bool :=
  forallb (fun item => bool_decide (item ∈ b)) (elements a).

(** [action.getIndex !== undefined && action.getIndex() !== null && i !== 0] *)
Definition dependsOnIndex (action : Action) (i : nat) : bool :=
  match getIndex action with
  | Some (Some _) => negb (Nat.eqb i 0)
  | _ => false
  end.

Definition newElementsMessage (i n : nat) : string :=
  "Something new appeared after action " +:+ pretty i +:+ " / " +:+ pretty n.

(** How a batch ended: [multiAct] returned its results, or the
    [Error('Interrupted')] of [_raiseIfStoppedOrPaused] left it. *)
Inductive Completion := Completed | Interrupted.

(** What a run of [multiAct] leaves: the browser, the results, and the
    actions handed to [controller.executeAction], in order. *)
Record BatchRun (World : Type) := {
  world : World;
  results : list ActionResult;
  dispatched : list Action;
  completion : Completion
}.
Arguments world {World}.
Arguments results {World}.
Arguments dispatched {World}.
Arguments completion {World}.

Section MultiAct.

(** The browser and the controller, as [multiAct] calls them. *)
Context {World : Type}.
(** [browserContext.getState()], of which the selector map is read. *)
Variable getState : World -> World * gmap Z DOMNode.
(** [_raiseIfStoppedOrPaused()]: [true] when it throws. *)
Variable _raiseIfStoppedOrPaused : World -> World * bool.
(** [controller.executeAction(actionType, actionParams)]: a result, or
    the message of the error it threw. *)
Variable executeAction : Action -> World -> World * (ActionResult + string).

(** The [for] loop of [multiAct] from index [i] on, [n] being
    [actions.length] and [actions] the actions from [i] on. *)
Fixpoint multiActLoop (n : nat) (checkForNewElements : bool)
         (cachedPathHashes : gset string) (i : nat) (actions : list Action)
         (w : World) (res : list ActionResult) (trace : list Action)
  : BatchRun World :=
  match actions with
  | [] => {| world := w; results := res; dispatched := trace;
             completion := Completed |}
  | action :: rest =>
      let '(w1, newSelectorMap) := getState w in
      if dependsOnIndex action i && checkForNewElements
         && negb (_isSubset (pathHashes newSelectorMap) cachedPathHashes)
      then {| world := w1;
              results := res ++ [infoResult (newElementsMessage i n)];
              dispatched := trace; completion := Completed |}
      else
        let '(w2, stopped) := _raiseIfStoppedOrPaused w1 in
        if stopped
        then {| world := w2; results := res; dispatched := trace;
                completion := Interrupted |}
        else if bool_decide (actionType action = "")
        then {| world := w2;
                results := res ++ [errorResult "Action type not specified"];
                dispatched := trace; completion := Completed |}
        else
          let '(w3, r) := executeAction action w2 in
          match r with
          | inl result =>
              if isDone result || truthy (error result) || Nat.eqb i (n - 1)
              then {| world := w3; results := res ++ [result];
                      dispatched := trace ++ [action]; completion := Completed |}
              else multiActLoop n checkForNewElements cachedPathHashes (S i) rest
                                w3 (res ++ [result]) (trace ++ [action])
          | inr message =>
              {| world := w3; results := res ++ [errorResult message];
                 dispatched := trace ++ [action]; completion := Completed |}
          end
  end.

(** [multiAct(actions, checkForNewElements = true)] *)
Definition multiAct (actions : list Action) (checkForNewElements : bool)
           (w : World) : BatchRun World :=
  let '(w0, cachedSelectorMap) := getState w in
  multiActLoop (length actions) checkForNewElements (pathHashes cachedSelectorMap)
               0 actions w0 [] [].

End MultiAct.

(** ** The part of [step] that builds the model's context *)

(** [nSteps % plannerInterval === 0]; with a zero interval the remainder
    is [NaN]. *)
Definition plannerTurn (nSteps plannerInterval : Z) : bool :=
  negb (bool_decide (plannerInterval = 0))
  && bool_decide (Z.rem nSteps plannerInterval = 0).

Definition lastStepMessage : string :=
  "Now comes your last step. Use only the " +:+ HistoryTreeProcessor.dquote
  +:+ "done" +:+ HistoryTreeProcessor.dquote
  +:+ " action now. No other actions - so here your action sequence must have length 1."
  +:+ String "010" "If the task is not yet fully finished as requested by the user, set success in "
  +:+ HistoryTreeProcessor.dquote +:+ "done" +:+ HistoryTreeProcessor.dquote
  +:+ " to false! E.g. if not all steps are fully completed."
  +:+ String "010" "If the task is fully finished, set success in "
  +:+ HistoryTreeProcessor.dquote +:+ "done" +:+ HistoryTreeProcessor.dquote
  +:+ " to true."
  +:+ String "010" "Include everything you found out for the ultimate task in the done text.".

(** The statements of [step] between [_raiseIfStoppedOrPaused()] and
    [getMessages()]: the state message, the plan when the planner is
    configured and due, the last-step warning.  [stateMessage] is what
    the prompt built from the browser state, [plan] what [_runPlanner]
    answered.  [None]: redaction left the modelled pattern fragment. *)
Definition appendContext (stateMessage : MessageManager.Message)
           (plannerConfigured : bool) (nSteps plannerInterval : Z)
           (plan : option string) (isLastStep : bool)
           (mm : MessageManager.Manager) : option MessageManager.Manager :=
  mm1 ← MessageManager.addStateMessage stateMessage mm;
  let mm2 :=
    if plannerConfigured && plannerTurn nSteps plannerInterval
    then MessageManager.withState mm1
           (MessageManager.addPlan plan (-1) (MessageManager.state mm1))
    else mm1 in
  Some (if isLastStep
        then MessageManager.withState mm2
               (MessageManager._addMessageWithTokens
                  {| MessageManager.role := MessageManager.user;
                     MessageManager.content := MessageManager.Str lastStepMessage |}
                  (MessageManager.state mm2))
        else mm2).

(** ** [_handleStepError] *)

(** The thrown value: whether it is an [Error], its [name], its
    [message], what [String(error)] gives, and its [stack]. *)
Record JsError := {
  isErrorInstance : bool;
  name : string;
  message : string;
  stringified : string;
  stack : option string
}.

(** [AgentError.formatError(error, includeTrace)] *)
Definition formatError (e : JsError) (includeTrace : bool) : string :=
  let errorMessage := if bool_decide (message e = "") then stringified e else message e in
  match stack e with
  | Some st =>
      if includeTrace && negb (bool_decide (st = ""))
      then errorMessage +:+ String "010" st
      else errorMessage
  | None => errorMessage
  end.

(** [haystack.includes(needle)] *)
Fixpoint includes (needle haystack : string) : bool :=
  String.prefix needle haystack
  || match haystack with
     | String _ h' => includes needle h'
     | EmptyString => false
     end.

(** The agent's fields that [_handleStepError] reads or writes:
    [settings.maxInputTokens], [state.consecutiveFailures], and the
    message manager. *)
Record AgentCore := {
  agentMaxInputTokens : Z;
  consecutiveFailures : Z;
  messageManager : MessageManager.Manager
}.

(** The handler returns its one-element result list, or an exception
    leaves it. *)
Inductive Handled :=
| HandlerReturned (res : list ActionResult)
| HandlerThrew.

Definition setMaxInputTokens (v : Z) (mm : MessageManager.Manager)
  : MessageManager.Manager :=
  {| MessageManager.settings :=
       {| MessageManager.maxInputTokens := v;
          MessageManager.messageContext :=
            MessageManager.messageContext (MessageManager.settings mm);
          MessageManager.sensitiveData :=
            MessageManager.sensitiveData (MessageManager.settings mm);
          MessageManager.availableFilePaths :=
            MessageManager.availableFilePaths (MessageManager.settings mm) |};
     MessageManager.state := MessageManager.state mm |}.

Definition bumpFailures (a : AgentCore) (mm : MessageManager.Manager) : AgentCore :=
  {| agentMaxInputTokens := agentMaxInputTokens a;
     consecutiveFailures := consecutiveFailures a + 1;
     messageManager := mm |}.

(** [_handleStepError(error)].  In the branch of an unparsable response
    the source assigns to the constant [errorMsg], which throws. *)
Definition _handleStepError (e : JsError) (includeTrace : bool) (a : AgentCore)
  : AgentCore * Handled :=
  let errorMsg := formatError e includeTrace in
  let answer := HandlerReturned [errorResult errorMsg] in
  if isErrorInstance e
     && (bool_decide (name e = "ValidationError") || bool_decide (name e = "ValueError"))
  then
    if includes "Max token limit reached" errorMsg then
      let mm1 := setMaxInputTokens (agentMaxInputTokens a - 500) (messageManager a) in
      match MessageManager.cutMessages (MessageManager.state mm1) with
      | (st, MessageManager.Returned) =>
          (bumpFailures a (MessageManager.withState mm1 st), answer)
      | (st, MessageManager.Threw) =>
          ({| agentMaxInputTokens := agentMaxInputTokens a;
              consecutiveFailures := consecutiveFailures a;
              messageManager := MessageManager.withState mm1 st |}, HandlerThrew)
      end
    else if includes "Could not parse response" errorMsg then (a, HandlerThrew)
    else (bumpFailures a (messageManager a), answer)
  else (bumpFailures a (messageManager a), answer).

End Agent.

(* ===================================================================== *)
(** * Queries on an element (dom/views.js) *)
(* ===================================================================== *)

Module ElementQueries.
Import Views.

(** [this.attributes[key]]; [None] is [undefined]. *)
Definition attribute (key : string) (e : ElementData) : option string :=
  snd <$> List.find (fun entry => String.eqb (fst entry) key) (attributes e).

(** [this.tagName === 'input' && this.attributes.type === 'file'] *)
Definition isFileInput (e : ElementData) : bool :=
  bool_decide (tagName e = "input") && bool_decide (attribute "type" e = Some "file").

(** [getFileUploadElement(false)]: the element itself, then its element
    children in turn.  The recursive calls of the source all pass
    [false]; the loops enter element nodes only, so the text case is
    never entered from them. *)
Fixpoint fileUploadWithin (node : DOMNode) {struct node} : option DOMNode :=
  match node with
  | DOMTextNode _ _ => None
  | DOMElementNode e children =>
      if isFileInput e then Some node
      else
        (fix loop (cs : list DOMNode) {struct cs} : option DOMNode :=
           match cs with
           | [] => None
           | child :: cs' =>
               match child with
               | DOMElementNode _ _ =>
                   match fileUploadWithin child with
                   | Some result => Some result
                   | None => loop cs'
                   end
               | DOMTextNode _ _ => loop cs'
               end
           end) children
  end.

(** The last loop of [getFileUploadElement]: the element nodes of
    [this.parent.children] other than [this], which is child number
    [own]; [k] is the number of the first of [siblings]. *)
Fixpoint fileUploadAmong (own : nat) (siblings : list DOMNode) (k : nat)
  : option DOMNode :=
  match siblings with
  | [] => None
  | sibling :: siblings' =>
      match sibling with
      | DOMElementNode _ _ =>
          if Nat.eqb k own then fileUploadAmong own siblings' (S k)
          else match fileUploadWithin sibling with
               | Some result => Some result
               | None => fileUploadAmong own siblings' (S k)
               end
      | DOMTextNode _ _ => fileUploadAmong own siblings' (S k)
      end
  end.

(** [getFileUploadElement(checkSiblings)] on the element [node], child
    number [own] of a parent with the children [parent], or a root when
    [parent] is [None]. *)
Definition getFileUploadElement (checkSiblings : bool)
           (parent : option (list DOMNode)) (own : nat) (node : DOMNode)
  : option DOMNode :=
  match fileUploadWithin node with
  | Some result => Some result
  | None =>
      match checkSiblings, parent with
      | true, Some siblings => fileUploadAmong own siblings O
      | _, _ => None
      end
  end.

Section Text.

(** [String.prototype.trim] *)
Variable trim : string -> string.

(** [collectText(node, currentDepth)] inside
    [getAllTextTillNextClickableElement]; the answer is what the call
    pushes on [textParts].  [isThis] is [node === this]: it holds at the
    first call only. *)
Fixpoint collectText (maxDepth : Z) (isThis : bool) (currentDepth : Z)
         (node : DOMNode) {struct node} : list string :=
  if negb (maxDepth =? -1) && (maxDepth <? currentDepth) then []
  else
    match node with
    | DOMElementNode e children =>
        if negb isThis && bool_decide (highlightIndex e <> None) then []
        else
          (fix each (cs : list DOMNode) {struct cs} : list string :=
             match cs with
             | [] => []
             | child :: cs' =>
                 collectText maxDepth false (currentDepth + 1) child ++ each cs'
             end) children
    | DOMTextNode _ text =>
        let trimmedText := trim text in
        if bool_decide (trimmedText = "") then [] else [trimmedText]
    end.

(** [getAllTextTillNextClickableElement(maxDepth)] *)
Definition getAllTextTillNextClickableElement
           (maxDepth : Z) (e : ElementData) (children : list DOMNode) : string :=
  trim (String.concat (String "010" EmptyString)
          (collectText maxDepth true 0 (DOMElementNode e children))).

End Text.

(** A form with a label, a text field and, in a wrapper, a file field. *)
Definition fileField : ElementData :=
  {| isVisible := true; tagName := "input"; xpath := "/html/body/form/div/input";
     attributes := [("type", "file"); ("name", "cv")]; isInteractive := true;
     isTopElement := true; isInViewport := true; shadowRoot := false;
     highlightIndex := Some 2 |}.

Definition wrapper : ElementData :=
  {| isVisible := true; tagName := "div"; xpath := "/html/body/form/div";
     attributes := []; isInteractive := false; isTopElement := true;
     isInViewport := true; shadowRoot := false; highlightIndex := None |}.

Definition uploadChildren : list DOMNode :=
  [DOMTextNode true "Your CV";
   DOMElementNode HistoryTreeProcessor.formField [];
   DOMElementNode wrapper [DOMElementNode fileField []]].

End ElementQueries.

(* ===================================================================== *)
(** * The history of a run (agent/views.js) *)
(* ===================================================================== *)

Module AgentHistoryList.
Import Agent.

(** An [AgentHistory] item.  The modelled getters read its [result]
    only. *)
Record AgentHistory := { result : list ActionResult }.

(** [get actionResults()]: [this.history.flatMap(item => item.result)] *)
Definition actionResults (history : list AgentHistory) : list ActionResult :=
  concat (map result history).

(** [get errors()] *)
Definition errors (history : list AgentHistory) : list string :=
  omap error (filter (fun r => truthy (error r) = true) (actionResults history)).

(** The inner loop of [finalResult] over the results of one item. *)
Fixpoint finalResultOf (results : list ActionResult) : option string :=
  match results with
  | [] => None
  | r :: results' =>
      if isDone r && truthy (extractedContent r) then extractedContent r
      else finalResultOf results'
  end.

(** The outer loop of [finalResult], [items] being the history from its
    last item back to its first. *)
Fixpoint finalResultFrom (items : list AgentHistory) : option string :=
  match items with
  | [] => None
  | item :: items' =>
      match finalResultOf (result item) with
      | Some content => Some content
      | None => finalResultFrom items'
      end
  end.

(** [get finalResult()] *)
Definition finalResult (history : list AgentHistory) : option string :=
  finalResultFrom (reverse history).

(** [get isDone()] *)
Definition isDone (history : list AgentHistory) : bool :=
  existsb Agent.isDone (actionResults history).

(** The loops of [isSuccessful]; [None] is [null], be it the [success]
    of the result found or the answer when none is found. *)
Fixpoint isSuccessfulFrom (items : list AgentHistory) : option bool :=
  match items with
  | [] => None
  | item :: items' =>
      match List.find Agent.isDone (result item) with
      | Some r => success r
      | None => isSuccessfulFrom items'
      end
  end.

(** [get isSuccessful()] *)
Definition isSuccessful (history : list AgentHistory) : option bool :=
  isSuccessfulFrom (reverse history).

(** [get hasErrors()] *)
Definition hasErrors (history : list AgentHistory) : bool :=
  (0 <? Z.of_nat (length (errors history))).

(** [get numberOfSteps()] *)
Definition numberOfSteps (history : list AgentHistory) : nat := length history.

End AgentHistoryList.

(* ===================================================================== *)
(** * Replaying a history step (agent/message_manager/utils.js) *)
(* ===================================================================== *)

Module Replay.
Import Views HistoryTreeProcessor Agent.

(** A value handed to the constructor of [BrowserStateHistory]: the
    options object that [_makeHistoryItem] and [loadFromFile] pass, with
    its [interactedElement], or an array of records. *)
Inductive Argument :=
| Options (interactedElement : list (option DOMHistoryElement))
| Elements (elements : list (option DOMHistoryElement)).

(** A [BrowserStateHistory] (browser/views.js).  Of its fields the
    replay reads [interactedElement]; [None] is [undefined]. *)
Record BrowserStateHistory := {
  url : option Argument;
  interactedElement : option Argument
}.

(** [new BrowserStateHistory(...arguments)]: the constructor
    [(url, title, tabs, interactedElement, screenshot = null)] binds its
    parameters by position. *)
Definition newBrowserStateHistory (arguments : list Argument) : BrowserStateHistory :=
  {| url := arguments !! 0%nat; interactedElement := arguments !! 3%nat |}.

(** The state of the item that [_makeHistoryItem] pushes:
    [new BrowserStateHistory({ url, title, tabs, interactedElement,
    screenshot })], one argument.  [loadFromFile] calls the constructor
    in the same way, with [item.state]. *)
Definition stateOfHistoryItem (interactedElements : list (option DOMHistoryElement))
  : BrowserStateHistory :=
  newBrowserStateHistory [Options interactedElements].

(** [state.interactedElement[i]].  The outer [None] is the [TypeError]
    of a read on [undefined]; an options object has no property [i], and
    an array has none past its end. *)
Definition interactedElementAt (state : BrowserStateHistory) (i : nat)
  : option (option DOMHistoryElement) :=
  match interactedElement state with
  | None => None
  | Some (Options _) => Some None
  | Some (Elements elements) => Some (mjoin (elements !! i))
  end.

(** How the loop of [_executeHistoryStep] over the actions ends: with
    the updated actions, with the
    [Error(`Could not find matching element ${i} in current page`)], or
    with the [TypeError] of the read of [interactedElement[i]]. *)
Inductive Replayed :=
| Updated (updatedActions : list Action)
| NoMatch (i : nat)
| ReadThrew.

Section Replay.

Variable _createHash : string -> string.

(** [action.setIndex(index)], which no class of the sources defines. *)
Variable setIndex : Action -> Z -> Action.

(** [_updateActionIndices(historicalElement, action, currentState)],
    [elementTree] being [currentState.elementTree]; [None] is [null].
    The walk of [findHistoryElementInTree] answers with element nodes
    only, so the text case is never entered. *)
Definition _updateActionIndices (historicalElement : option DOMHistoryElement)
           (action : Action) (elementTree : option DOMNode) : option Action :=
  match historicalElement, elementTree with
  | Some h, Some tree =>
      match findHistoryElementInTree _createHash h tree with
      | Some (_, DOMElementNode currentElement _) =>
          match highlightIndex currentElement with
          | None => None
          | Some newIndex =>
              match getIndex action with
              | Some (Some oldIndex) =>
                  if bool_decide (oldIndex <> newIndex)
                  then Some (setIndex action newIndex)
                  else Some action
              | _ => Some action
              end
          end
      | _ => None
      end
  | _, _ => Some action
  end.

(** The loop of [_executeHistoryStep] from action number [i] on,
    [state] being [historyItem.state] and [actions] the actions of
    [historyItem.modelOutput] from [i] on. *)
Fixpoint updatedActionsFrom (state : BrowserStateHistory)
         (elementTree : option DOMNode) (actions : list Action) (i : nat)
  : Replayed :=
  match actions with
  | [] => Updated []
  | action :: actions' =>
      match interactedElementAt state i with
      | None => ReadThrew
      | Some historicalElement =>
          match _updateActionIndices historicalElement action elementTree with
          | None => NoMatch i
          | Some updatedAction =>
              match updatedActionsFrom state elementTree actions' (S i) with
              | Updated rest => Updated (updatedAction :: rest)
              | stopped => stopped
              end
          end
      end
  end.

End Replay.

End Replay.

(* ===================================================================== *)
(** * Notions the statements are written with *)
(* ===================================================================== *)

Module WindowSpec.
Import MessageManager.

(** The estimated cost of a list of messages. *)
Definition sumTokens (ms : list Message) : Z :=
  foldr (fun m acc => messageTokens (content m) + acc) 0 ms.

(** What [cutMessages] charges for the two messages it always keeps. *)
Definition headTokens (systemMessage taskMessage : Message) : Z :=
  ceilDiv4 (contentLength (content systemMessage))
  + ceilDiv4 (contentLength (content taskMessage)).

(** The total [cutMessages] records for the window made of the two
    leading messages and [kept]. *)
Definition windowTokens (systemMessage taskMessage : Message)
           (kept : list Message) : Z :=
  headTokens systemMessage taskMessage + sumTokens kept.

(** The window in the specification's words: the messages are taken
    newest first, and one is kept exactly when its cost added to the
    total so far (the base and the newer messages already kept) stays
    within the ceiling.  [rest] is in history order, oldest first. *)
Fixpoint greedyKeep (maxT base : Z) (rest : list Message) : list Message :=
  match rest with
  | [] => []
  | m :: newer =>
      let keptNewer := greedyKeep maxT base newer in
      if bool_decide (base + sumTokens keptNewer + messageTokens (content m) <= maxT)
      then m :: keptNewer
      else keptNewer
  end.

(** A string of [n] characters. *)
Fixpoint filler (n : nat) : string :=
  match n with
  | O => EmptyString
  | S n' => String "x" (filler n')
  end.

Definition textMessage (r : Role) (chars : nat) : Message :=
  {| role := r; content := Str (filler chars) |}.

(** A state message of 1200 characters (300 tokens) that starts with
    [tag]. *)
Definition stateMessage (tag : ascii) : Message :=
  {| role := user; content := Str (String tag (filler 1199)) |}.

(** The specification's scenario: ceiling 1000, a system message of 200
    tokens, a task of 100, five state messages of 300 each. *)
Definition scenarioRest : list Message :=
  [stateMessage "a"; stateMessage "b"; stateMessage "c";
   stateMessage "d"; stateMessage "e"].

Definition scenarioState : State :=
  {| history := textMessage system 800 :: textMessage user 400 :: scenarioRest;
     currentTokens := 1800;
     maxTokens := 1000 |}.

End WindowSpec.

(** Concrete managers, errors and messages the evaluations run on. *)
Module Scenarios.
Import MessageManager.

Definition plainSettings (ceiling : Z) : Settings :=
  {| maxInputTokens := ceiling; messageContext := None;
     sensitiveData := None; availableFilePaths := None |}.

Definition systemPrompt : Message :=
  {| role := system; content := Str "You are an agent." |}.

(** A manager as the agent's constructor builds it. *)
Definition freshManager : Manager :=
  newMessageManager "buy milk" systemPrompt (plainSettings 1000) emptyState.

Definition pageMessage : Message :=
  {| role := user; content := Str "URL: https://shop.example" |}.

(** A manager within its ceiling of 1000: 200 + 100 + 650 tokens. *)
Definition fullManager : Manager :=
  {| settings := plainSettings 1000;
     state := {| history := [WindowSpec.textMessage system 800;
                             WindowSpec.textMessage user 400;
                             WindowSpec.textMessage user 2600];
                 currentTokens := 950;
                 maxTokens := 1000 |} |}.

Definition fullAgent : Agent.AgentCore :=
  {| Agent.agentMaxInputTokens := 1000;
     Agent.consecutiveFailures := 0;
     Agent.messageManager := fullManager |}.

Definition tokenLimitError : Agent.JsError :=
  {| Agent.isErrorInstance := true;
     Agent.name := "ValidationError";
     Agent.message := "Max token limit reached";
     Agent.stringified := "ValidationError: Max token limit reached";
     Agent.stack := None |}.

(** A manager told to redact one password. *)
Definition secretManager : Manager :=
  newMessageManager "log in" systemPrompt
    {| maxInputTokens := 1000; messageContext := None;
       sensitiveData := Some [("password", "pa$$word")];
       availableFilePaths := None |}
    emptyState.

Definition secretMessage : Message :=
  {| role := user; content := Str "Typed pa$$word into the form" |}.

Definition secretVisionMessage : Message :=
  {| role := user;
     content := Parts [TextPart (Some "Typed pa$$word into the form");
                       ImagePart "data:image/png;base64,AAAA"] |}.

End Scenarios.

(** Notions for the statements about a batch of actions. *)
Module BatchSpec.
Import Views Agent.

Section Through.

Context {World : Type}.
Variable getState : World -> World * gmap Z DOMNode.
Variable _raiseIfStoppedOrPaused : World -> World * bool.
Variable executeAction : Action -> World -> World * (ActionResult + string).

(** The loop run over the actions [pre], which start at index [i], as
    long as none of them ends the batch: [Some] of the browser, the
    results and the dispatched actions after the last of them, [None] as
    soon as one stops on new elements, is interrupted, has no type,
    throws, reports [done] or an error, or is the last of the batch. *)
Fixpoint through (n : nat) (checkForNewElements : bool)
         (cachedPathHashes : gset string) (i : nat) (pre : list Action)
         (w : World) (res : list ActionResult) (trace : list Action)
  : option (World * list ActionResult * list Action) :=
  match pre with
  | [] => Some (w, res, trace)
  | action :: rest =>
      let '(w1, newSelectorMap) := getState w in
      if dependsOnIndex action i && checkForNewElements
         && negb (_isSubset (pathHashes newSelectorMap) cachedPathHashes)
      then None
      else
        let '(w2, stopped) := _raiseIfStoppedOrPaused w1 in
        if stopped then None
        else if bool_decide (actionType action = "") then None
        else
          let '(w3, r) := executeAction action w2 in
          match r with
          | inl result =>
              if isDone result || truthy (error result) || Nat.eqb i (n - 1)
              then None
              else through n checkForNewElements cachedPathHashes (S i) rest
                           w3 (res ++ [result]) (trace ++ [action])
          | inr _ => None
          end
  end.

End Through.

(** A browser for the evaluations: the state is the number of actions
    executed so far, every action succeeds, nothing interrupts. *)
Definition button : DOMNode :=
  DOMElementNode
    {| isVisible := true; tagName := "button"; xpath := "/html/body/button";
       attributes := [("type", "submit")]; isInteractive := true;
       isTopElement := true; isInViewport := true; shadowRoot := false;
       highlightIndex := Some 0 |}
    [DOMTextNode true "Submit"].

Definition dialog : DOMNode :=
  DOMElementNode
    {| isVisible := true; tagName := "div"; xpath := "/html/body/div";
       attributes := [("role", "dialog")]; isInteractive := true;
       isTopElement := true; isInViewport := true; shadowRoot := false;
       highlightIndex := Some 1 |}
    [].

(** Two buttons that have the tag name and the number of children in
    common and nothing else, and a link. *)
Definition payButton : DOMNode :=
  DOMElementNode
    {| isVisible := true; tagName := "button"; xpath := "/html/body/form/button";
       attributes := [("type", "submit")]; isInteractive := true;
       isTopElement := true; isInViewport := true; shadowRoot := false;
       highlightIndex := Some 4 |}
    [DOMTextNode true "Pay"].

Definition closeButton : DOMNode :=
  DOMElementNode
    {| isVisible := false; tagName := "button"; xpath := "/html/body/div[2]/button";
       attributes := [("class", "close"); ("aria-label", "Close")];
       isInteractive := true; isTopElement := false; isInViewport := false;
       shadowRoot := false; highlightIndex := Some 9 |}
    [DOMElementNode defaultElement []].

Definition homeLink : DOMNode :=
  DOMElementNode
    {| isVisible := true; tagName := "a"; xpath := "/html/body/nav/a";
       attributes := [("href", "/")]; isInteractive := true;
       isTopElement := true; isInViewport := true; shadowRoot := false;
       highlightIndex := Some 7 |}
    [].

Definition okResult : ActionResult :=
  {| isDone := false; success := None; extractedContent := Some "ok";
     error := None; includeInMemory := false |}.

Definition neverStopped (w : nat) : nat * bool := (w, false).

Definition alwaysOk (a : Action) (w : nat) : nat * (ActionResult + string) :=
  (S w, inl okResult).

(** A dialog appears once the first action has run. *)
Definition dialogAppears (w : nat) : nat * gmap Z DOMNode :=
  (w, if Nat.eqb w 0 then {[ 0 := button ]}
      else {[ 0 := button; 1 := dialog ]}).

(** A dialog is there at first and gone once the first action has run. *)
Definition dialogCloses (w : nat) : nat * gmap Z DOMNode :=
  (w, if Nat.eqb w 0 then {[ 0 := button; 1 := dialog ]}
      else {[ 0 := button ]}).

(** Actions of a class that defines [getIndex], which no class of the
    sources does. *)
Definition clickFirst : Action :=
  {| getIndex := Some (Some 0); actionType := "click_element"; actionParams := "{index: 0}" |}.

Definition typeInFirst : Action :=
  {| getIndex := Some (Some 0); actionType := "input_text"; actionParams := "{index: 0, text: 'milk'}" |}.

Definition scrollDown : Action :=
  {| getIndex := None; actionType := "scroll_down"; actionParams := "{}" |}.

(** The actions of the scenario as the agent has them: instances of the
    registry's action model. *)
Definition clickElement : Action :=
  DynamicActionModel "click_element" "{index: 0}".

Definition inputText : Action :=
  DynamicActionModel "input_text" "{index: 0, text: 'milk'}".

Definition scroll : Action :=
  DynamicActionModel "scroll_down" "{}".

End BatchSpec.

(** The running total of a state is the sum of the estimates of its
    messages. *)
Module Accounting.
Import MessageManager WindowSpec.

Definition accounted (st : State) : Prop :=
  currentTokens st = sumTokens (history st).

(** The two leading messages, if there are two, hold text. *)
Definition textHeads (st : State) : Prop :=
  match history st with
  | m0 :: m1 :: _ =>
      (exists s0, content m0 = Str s0) /\ (exists s1, content m1 = Str s1)
  | _ => True
  end.

End Accounting.

(** A result after which the loop of [multiAct] goes on. *)
Module BatchShape.
Import Agent.

Definition goesOn (r : ActionResult) : Prop :=
  isDone r = false /\ truthy (error r) = false.

End BatchShape.

(** Notions for the statements about the built node set. *)
Module SnapshotShape.
Import Views DomService.

(** What the payload says the node under [id] is, if it builds one. *)
Definition nodeOf (entries : list (string * option NodeData)) (id : string)
  : option NodeKind :=
  nd ← entryOf id entries; (_parseNode nd).1.

(** The child ids the payload lists for [id]. *)
Definition childIdsOf (entries : list (string * option NodeData)) (id : string)
  : list string :=
  default [] (nd ← entryOf id entries; nd_children nd).

(** The highlight index of the node a description builds. *)
Definition parsedIndex (nd : NodeData) : option Z :=
  match (_parseNode nd).1 with
  | Some (ElementKind e) => highlightIndex e
  | _ => None
  end.

(** A child id that the wiring loop links: not empty, and a name under
    which [nodeMap] answers. *)
Definition validChild (nodeMap : gmap string HeapNode) (c : string) : Prop :=
  c <> "" /\ resolves nodeMap c = true.

#[global] Instance validChild_dec nodeMap c : Decision (validChild nodeMap c).
Proof. unfold validChild. apply _. Defined.

(** The node under [x] once [c0] has been linked below [p0]. *)
Definition linked (p0 c0 x : string) (n : HeapNode) : HeapNode :=
  {| kind := kind n;
     parent := if decide (x = c0) then Some p0 else parent n;
     children := if decide (x = p0) then children n ++ [c0] else children n |}.

(** A payload given by its entries and a root id. *)
Definition payload (entries : list (string * option NodeData)) (r : string)
  : option EvalPage :=
  Some {| map := Some entries; rootId := Some r |}.

(** The ids of a payload: the keys of its entries and the child ids
    that the entries list. *)
Fixpoint idsOf (entries : list (string * option NodeData)) : list string :=
  match entries with
  | [] => []
  | (id, nodeData) :: entries' =>
      id :: default [] (nodeData ≫= nd_children) ++ idsOf entries'
  end.

(** No id of the payload is the name of a member of [Object.prototype]:
    every read of [nodeMap] and [jsNodeMap] under an id of the payload
    is answered by a property of the object's own or not at all. *)
Definition ordinaryIds (entries : list (string * option NodeData)) : Prop :=
  Forall (fun id => inherited id = false) (idsOf entries).

(** The links of a node set agree: a parent lists its child, and a
    listed child has a parent. *)
Definition familyLinks (nodeMap : gmap string HeapNode) : Prop :=
  (forall c n p, nodeMap !! c = Some n -> parent n = Some p ->
     exists np, nodeMap !! p = Some np /\ c ∈ children np)
  /\ (forall p np c, nodeMap !! p = Some np -> c ∈ children np ->
        exists n, nodeMap !! c = Some n /\ is_Some (parent n)).

End SnapshotShape.

(** Notions for the statements about redaction. *)
Module RedactionShape.
Import MessageManager.

(** The place of the leftmost occurrence of [v] in [s]. *)
Fixpoint firstIndex (v s : string) : option nat :=
  if String.prefix v s then Some O
  else match s with
       | String _ s' => S <$> firstIndex v s'
       | EmptyString => None
       end.

(** An entry that redaction passes over on [text]: its value is empty,
    or it is made of ordinary characters and does not occur in [text]
    (and its key brings no [$] into the replacement). *)
Definition passesOver (text : string) (entry : string * string) : Prop :=
  entry.2 = ""
  \/ (JsRegExp.plainString entry.2 = true
      /\ JsRegExp.containsChar "$" entry.1 = false
      /\ Agent.includes entry.2 text = false).

End RedactionShape.

(** Notions for the statements about the queries on an element. *)
Module QueryShape.
Import Views ElementQueries.

(** The element nodes of a tree in document order. *)
Fixpoint elementsOf (node : DOMNode) {struct node} : list DOMNode :=
  match node with
  | DOMTextNode _ _ => []
  | DOMElementNode e children =>
      node :: (fix walk (cs : list DOMNode) {struct cs} : list DOMNode :=
                 match cs with
                 | [] => []
                 | child :: cs' => elementsOf child ++ walk cs'
                 end) children
  end.

(** [elementsOf] of a list of children. *)
Fixpoint elementsAmong (cs : list DOMNode) : list DOMNode :=
  match cs with
  | [] => []
  | child :: cs' => elementsOf child ++ elementsAmong cs'
  end.

Definition isFileInputNode (node : DOMNode) : bool :=
  match node with
  | DOMElementNode e _ => isFileInput e
  | DOMTextNode _ _ => false
  end.

(** A tree with everything below its indexed elements taken away. *)
Fixpoint cutAtIndexed (node : DOMNode) {struct node} : DOMNode :=
  match node with
  | DOMTextNode visible text => DOMTextNode visible text
  | DOMElementNode e children =>
      if bool_decide (highlightIndex e <> None) then DOMElementNode e []
      else DOMElementNode e (map cutAtIndexed children)
  end.

End QueryShape.

(** Notions for the statements about the history of a run. *)
Module HistoryShape.
Import Agent AgentHistoryList.

(** No result of the item is a done result. *)
Definition unfinished (item : AgentHistory) : Prop :=
  Forall (fun r => Agent.isDone r = false) (result item).

End HistoryShape.

(** Notions for the statements about replay. *)
Module ReplayShape.
Import Views HistoryTreeProcessor Agent.

(** The record, if there is one, was made from an indexed node of the
    tree. *)
Definition recordedOn (tree : DOMNode) (record : option DOMHistoryElement) : Prop :=
  match record with
  | None => True
  | Some h =>
      exists pos ancestors e cs,
        nodeAt [] tree pos = Some (ancestors, DOMElementNode e cs)
        /\ highlightIndex e <> None
        /\ h = convertDomElementToHistoryElement ancestors e
  end.

End ReplayShape.

(* ===================================================================== *)
(** * Proofs *)
(* ===================================================================== *)

Module RegExpProofs.
Import JsRegExp.

(** A value without syntax characters is the pattern of its own
    characters. *)
Lemma parsePattern_plain (v : string) :
  plainString v = true -> parsePattern v = Some (literalPattern v).
Proof.
  induction v as [|c v IH]; [reflexivity|].
  cbn [plainString]. intros [Hc Hv]%andb_true_iff.
  specialize (IH Hv). cbn [parsePattern literalPattern].
  unfold plainChar in Hc. apply negb_true_iff in Hc.
  apply orb_false_iff in Hc as [Hc Hdot]. apply orb_false_iff in Hc as [Hc Hend].
  rewrite Hc, Hend. unfold atomOf. rewrite Hdot.
  destruct v as [|d v']; [reflexivity|].
  assert (plainChar d = true) as Hd.
  { cbn [plainString] in Hv. by apply andb_true_iff in Hv as [Hd _]. }
  rewrite IH.
  destruct d as [[] [] [] [] [] [] [] []]; try reflexivity; discriminate Hd.
Qed.

(** Such a pattern matches at the head of a string exactly when the
    value is a prefix of it, and consumes the value. *)
Lemma matchHere_literal (v s : string) :
  matchHere (literalPattern v) s
  = if String.prefix v s then Some (String.length v) else None.
Proof.
  revert s. induction v as [|c v IH]; intros s.
  - by destruct s.
  - cbn [literalPattern matchHere]. destruct s as [|d s]; [reflexivity|].
    cbn [matchOne atomMatches String.prefix String.length]. unfold asciiEqb.
    destruct (Ascii.ascii_dec c d) as [->|Hne].
    + rewrite bool_decide_eq_true_2 by reflexivity. rewrite IH.
      by destruct (String.prefix v s).
    + by rewrite bool_decide_eq_false_2 by congruence.
Qed.

End RegExpProofs.

Module MessageManagerProofs.
Import MessageManager WindowSpec.

Lemma ceilDiv4_nonneg n : 0 <= n -> 0 <= ceilDiv4 n.
Proof. intros Hn. unfold ceilDiv4. apply Z.div_pos; lia. Qed.

Lemma strLength_nonneg s : 0 <= strLength s.
Proof. unfold strLength. lia. Qed.

Lemma textTokens_nonneg ps : 0 <= textTokens ps.
Proof.
  induction ps as [|p ps IH]; simpl; [lia|].
  destruct p as [t| |]; try assumption.
  assert (0 <= ceilDiv4 (partTextLength t)).
  { apply ceilDiv4_nonneg. destruct t; simpl; [apply strLength_nonneg | lia]. }
  lia.
Qed.

Lemma imageCount_nonneg ps : 0 <= imageCount ps.
Proof. induction ps as [|p ps IH]; simpl; [lia|]. destruct p; lia. Qed.

Lemma messageTokens_nonneg c : 0 <= messageTokens c.
Proof.
  destruct c as [s|ps]; simpl.
  - apply ceilDiv4_nonneg, strLength_nonneg.
  - pose proof (textTokens_nonneg ps). pose proof (imageCount_nonneg ps). lia.
Qed.

Lemma sumTokens_nonneg ms : 0 <= sumTokens ms.
Proof.
  induction ms as [|m ms IH]; simpl; [lia|].
  pose proof (messageTokens_nonneg (content m)). lia.
Qed.

(** For string content the head charge is the shared estimate. *)
Lemma headTokens_text s t r1 r2 :
  headTokens {| role := r1; content := Str s |} {| role := r2; content := Str t |}
  = messageTokens (Str s) + messageTokens (Str t).
Proof. reflexivity. Qed.

(** When the two leading messages are text, as the constructor makes
    them, the recorded total of a window is the sum of the estimates of
    its messages. *)
Lemma windowTokens_text s t r1 r2 kept :
  windowTokens {| role := r1; content := Str s |} {| role := r2; content := Str t |} kept
  = sumTokens ({| role := r1; content := Str s |}
               :: {| role := r2; content := Str t |} :: kept).
Proof.
  unfold windowTokens. rewrite headTokens_text.
  cbn [sumTokens foldr content]. fold (sumTokens kept). lia.
Qed.

(** The loop of the source computes the window of the specification. *)
Lemma cutLoop_greedy maxT base older newer :
  cutLoop maxT (rev older) (greedyKeep maxT base newer)
          (base + sumTokens (greedyKeep maxT base newer))
  = (greedyKeep maxT base (older ++ newer),
     base + sumTokens (greedyKeep maxT base (older ++ newer))).
Proof.
  revert newer. induction older as [|m older IH] using rev_ind; intros newer.
  - reflexivity.
  - rewrite rev_unit. cbn [cutLoop].
    rewrite <- app_assoc. cbn [app].
    specialize (IH (m :: newer)). cbn [greedyKeep] in IH.
    destruct (decide (base + sumTokens (greedyKeep maxT base newer)
                      + messageTokens (content m) <= maxT)) as [Hle|Hgt].
    + rewrite bool_decide_eq_true_2 in IH by exact Hle.
      rewrite bool_decide_eq_false_2 by lia.
      cbn [sumTokens foldr] in IH. fold (sumTokens (greedyKeep maxT base newer)) in IH.
      rewrite <- IH. f_equal. lia.
    + rewrite bool_decide_eq_false_2 in IH by exact Hgt.
      rewrite bool_decide_eq_true_2 by lia. exact IH.
Qed.

Lemma cutLoop_window maxT base rest :
  cutLoop maxT (rev rest) [] base
  = (greedyKeep maxT base rest, base + sumTokens (greedyKeep maxT base rest)).
Proof.
  pose proof (cutLoop_greedy maxT base rest []) as H.
  cbn [greedyKeep sumTokens foldr] in H.
  rewrite Z.add_0_r, app_nil_r in H. exact H.
Qed.

Lemma greedyKeep_sublist maxT base rest : sublist (greedyKeep maxT base rest) rest.
Proof.
  induction rest as [|m rest IH]; cbn [greedyKeep]; [constructor|].
  case_bool_decide; [by apply sublist_skip | by apply sublist_cons].
Qed.

Lemma greedyKeep_fits maxT base rest :
  base <= maxT -> base + sumTokens (greedyKeep maxT base rest) <= maxT.
Proof.
  intros Hb. induction rest as [|m rest IH]; cbn [greedyKeep].
  - simpl. lia.
  - case_bool_decide as Hle; [|exact IH].
    cbn [sumTokens foldr]. fold (sumTokens (greedyKeep maxT base rest)). lia.
Qed.

Lemma greedyKeep_over maxT base rest :
  maxT < base -> greedyKeep maxT base rest = [].
Proof.
  intros Hb. induction rest as [|m rest IH]; cbn [greedyKeep]; [reflexivity|].
  rewrite IH. rewrite bool_decide_eq_false_2; [reflexivity|].
  pose proof (messageTokens_nonneg (content m)). simpl. lia.
Qed.

(** A message sits between the older ones and the newer ones; what is
    kept of the newer ones does not depend on it or on the older ones. *)
Lemma greedyKeep_app maxT base older l :
  exists keptOlder,
    greedyKeep maxT base (older ++ l) = keptOlder ++ greedyKeep maxT base l
    /\ sublist keptOlder older.
Proof.
  induction older as [|m older (k & Hk & Hs)]; cbn [app greedyKeep].
  - exists []. split; [reflexivity | constructor].
  - case_bool_decide.
    + exists (m :: k). rewrite Hk. split; [reflexivity | by apply sublist_skip].
    + exists k. split; [exact Hk | by apply sublist_cons].
Qed.

Lemma cutMessages_over (st : State) sys task rest :
  history st = sys :: task :: rest ->
  maxTokens st < currentTokens st ->
  cutMessages st =
    ({| history := sys :: task :: greedyKeep (maxTokens st) (headTokens sys task) rest;
        currentTokens :=
          windowTokens sys task (greedyKeep (maxTokens st) (headTokens sys task) rest);
        maxTokens := maxTokens st |}, Returned).
Proof.
  intros Hh Hover. unfold cutMessages.
  rewrite bool_decide_eq_false_2 by lia. rewrite Hh.
  fold (headTokens sys task). rewrite cutLoop_window. reflexivity.
Qed.

(** C3.  When the running total exceeds the ceiling and the history has
    at least two messages, [cutMessages] returns with the first two
    messages in place, followed by a sublist of the others; the total it
    records is that of the window it kept, and it is within the ceiling
    whenever some choice of the other messages gives a window within the
    ceiling.  The messages are taken newest first: a message is kept
    exactly when its cost added to the total of the two leading messages
    and of the newer messages already kept stays within the ceiling. *)
Theorem cutMessages_keeps_head_and_fits
        (st : State) (sys task : Message) (rest : list Message) :
  history st = sys :: task :: rest ->
  maxTokens st < currentTokens st ->
  let keep := greedyKeep (maxTokens st) (headTokens sys task) in
  cutMessages st =
    ({| history := sys :: task :: keep rest;
        currentTokens := windowTokens sys task (keep rest);
        maxTokens := maxTokens st |}, Returned)
  /\ sublist (keep rest) rest
  /\ ((exists sub, sublist sub rest /\ windowTokens sys task sub <= maxTokens st) ->
      windowTokens sys task (keep rest) <= maxTokens st)
  /\ (forall older m newer, rest = older ++ m :: newer ->
      exists keptOlder,
        sublist keptOlder older
        /\ keep rest =
             keptOlder
             ++ (if bool_decide (windowTokens sys task (keep newer)
                                 + messageTokens (content m) <= maxTokens st)
                 then [m] else [])
             ++ keep newer).
Proof.
  intros Hh Hover keep. split; [|split; [|split]].
  - by apply cutMessages_over.
  - apply greedyKeep_sublist.
  - intros (sub & _ & Hsub). unfold windowTokens in *.
    apply greedyKeep_fits. pose proof (sumTokens_nonneg sub). lia.
  - intros older m newer ->.
    destruct (greedyKeep_app (maxTokens st) (headTokens sys task) older (m :: newer))
      as (k & Hk & Hs).
    exists k. split; [exact Hs|]. unfold keep. rewrite Hk. f_equal.
    cbn [greedyKeep]. unfold windowTokens. by case_bool_decide.
Qed.

(** The specification's scenario, through the theorem: the window keeps
    the system message, the task and the two newest state messages, and
    records 900 tokens. *)
Lemma cutMessages_scenario :
  maxTokens scenarioState < currentTokens scenarioState
  /\ history (fst (cutMessages scenarioState))
     = [textMessage system 800; textMessage user 400;
        stateMessage "d"; stateMessage "e"]
  /\ currentTokens (fst (cutMessages scenarioState)) = 900.
Proof.
  split; [reflexivity|].
  destruct (cutMessages_keeps_head_and_fits
              scenarioState (textMessage system 800) (textMessage user 400)
              scenarioRest eq_refl eq_refl) as (Heq & _).
  rewrite Heq. split; vm_compute; reflexivity.
Defined.

(** C9.  A second call of [cutMessages] right after a first one leaves
    the state (the history, the recorded total and the ceiling) as the
    first call left it; this holds whether the first call trimmed,
    returned at once, or threw on a history of fewer than two
    messages. *)
Theorem cutMessages_idempotent (st : State) :
  fst (cutMessages (fst (cutMessages st))) = fst (cutMessages st).
Proof.
  destruct (decide (currentTokens st <= maxTokens st)) as [Hle|Hgt].
  { unfold cutMessages at 2 3. rewrite bool_decide_eq_true_2 by exact Hle.
    cbn [fst]. unfold cutMessages. by rewrite bool_decide_eq_true_2. }
  destruct (history st) as [|sys [|task rest]] eqn:Hh.
  - unfold cutMessages at 2 3. rewrite bool_decide_eq_false_2, Hh by exact Hgt.
    cbn [fst]. unfold cutMessages. by rewrite bool_decide_eq_false_2, Hh.
  - unfold cutMessages at 2 3. rewrite bool_decide_eq_false_2, Hh by exact Hgt.
    cbn [fst]. unfold cutMessages. by rewrite bool_decide_eq_false_2, Hh.
  - rewrite (cutMessages_over st sys task rest Hh) by lia. cbn [fst].
    set (base := headTokens sys task). set (kept := greedyKeep (maxTokens st) base rest).
    destruct (decide (windowTokens sys task kept <= maxTokens st)) as [Hfit|Hno].
    + unfold cutMessages. cbn [currentTokens maxTokens].
      by rewrite bool_decide_eq_true_2.
    + assert (maxTokens st < base) as Hbase.
      { destruct (decide (base <= maxTokens st)) as [Hb|Hb]; [|lia].
        pose proof (greedyKeep_fits (maxTokens st) base rest Hb).
        unfold windowTokens in Hno. fold base in Hno. fold kept in H. lia. }
      assert (kept = []) as Hk by (by apply greedyKeep_over).
      rewrite Hk. unfold cutMessages. cbn [currentTokens maxTokens history].
      unfold windowTokens. fold base. cbn [sumTokens foldr].
      rewrite bool_decide_eq_false_2 by lia.
      cbn [rev cutLoop fst]. fold (headTokens sys task). fold base.
      f_equal. lia.
Qed.

End MessageManagerProofs.

Module AgentProofs.
Import MessageManager Agent Scenarios.

(** ** Planning cadence *)

(** With the position the step passes, a plan that is not empty goes
    through [_addMessageWithTokens]: it is appended. *)
Lemma addPlan_default_appends (p : string) (st : State) :
  p <> "" ->
  history (addPlan (Some p) (-1) st)
  = history st ++ [{| role := user; content := Str ("Plan: " +:+ p) |}].
Proof.
  intros Hp. unfold addPlan. destruct p as [|c p]; [done|]. reflexivity.
Qed.

(** X7.  When the planner is configured and due, and nothing is to be
    redacted, the context of the step ends with the state message
    followed by the plan. *)
Lemma appendContext_plan_last (stateMessage : Message) (nSteps interval : Z)
      (p : string) (mm : Manager) :
  sensitiveData (settings mm) = None ->
  plannerTurn nSteps interval = true ->
  p <> "" ->
  (fun mm' => history (state mm'))
    <$> appendContext stateMessage true nSteps interval (Some p) false mm
  = Some (history (state mm)
          ++ [stateMessage; {| role := user; content := Str ("Plan: " +:+ p) |}]).
Proof.
  intros Hs Hdue Hp. unfold appendContext, addStateMessage.
  rewrite Hs, Hdue. cbn [mbind option_bind fmap option_fmap option_map andb].
  unfold withState. cbn [state].
  rewrite addPlan_default_appends by exact Hp.
  cbn [_addMessageWithTokens history]. by rewrite <- app_assoc.
Qed.

(** C5, on the code.  The planner is configured and due (step 1, every
    step); the state message has just been appended.  The plan ends up
    after the state message, as the last message of the history, and not
    before it. *)
Theorem step_plan_follows_state_message :
  plannerTurn 1 1 = true
  /\ (fun mm' => history (state mm'))
       <$> appendContext pageMessage true 1 1 (Some "search first") false freshManager
     = Some [systemPrompt;
             {| role := user; content := Str "Task: buy milk" |};
             pageMessage;
             {| role := user; content := Str "Plan: search first" |}].
Proof. split; reflexivity. Qed.

(** ** Step errors *)

Lemma cutMessages_maxTokens (st : State) :
  maxTokens (fst (cutMessages st)) = maxTokens st.
Proof.
  unfold cutMessages. case_bool_decide; [reflexivity|].
  destruct (history st) as [|sys [|task rest]]; try reflexivity.
  destruct (cutLoop _ _ _ _). reflexivity.
Qed.

(** Whatever the error, the handler leaves the ceiling that
    [cutMessages] reads as it was. *)
Lemma handleStepError_keeps_maxTokens (e : JsError) (trace : bool) (a : AgentCore) :
  maxTokens (state (messageManager (fst (_handleStepError e trace a))))
  = maxTokens (state (messageManager a)).
Proof.
  unfold _handleStepError.
  destruct (isErrorInstance e && _); [|reflexivity].
  destruct (includes "Max token limit reached" _).
  - pose proof (cutMessages_maxTokens
                  (state (setMaxInputTokens (agentMaxInputTokens a - 500)
                                            (messageManager a)))) as H.
    destruct (cutMessages _) as [st []]; cbn in *; exact H.
  - destruct (includes "Could not parse response" _); reflexivity.
Qed.

(** C6, on the code.  A validation error carrying the token-limit
    marker reaches an agent whose history (950 tokens) is within its
    ceiling of 1000.  The handler writes 500 to the settings of the
    message manager and counts the failure, but the ceiling that
    [cutMessages] compares with stays 1000, and the history is left
    untouched at 950 tokens, above 500. *)
Theorem handleStepError_token_limit_no_trim :
  let a' := fst (_handleStepError tokenLimitError false fullAgent) in
  maxInputTokens (settings (messageManager a')) = 500
  /\ maxTokens (state (messageManager a')) = 1000
  /\ history (state (messageManager a')) = history (state fullManager)
  /\ currentTokens (state (messageManager a')) = 950
  /\ consecutiveFailures a' = 1.
Proof. vm_compute. repeat split; reflexivity. Qed.

(** ** Redaction *)

(** C7, on the code.  The password is handed to [RegExp] as a pattern;
    its [$] is read as an end-of-input assertion, nothing matches, and the
    state message is stored with the password in it, as a string and as
    the text segment of a list. *)
Theorem addStateMessage_leaks_pattern_value :
  (fun mm' => last (history (state mm'))) <$> addStateMessage secretMessage secretManager
  = Some (Some secretMessage)
  /\ (fun mm' => last (history (state mm')))
       <$> addStateMessage secretVisionMessage secretManager
     = Some (Some secretVisionMessage).
Proof. split; vm_compute; reflexivity. Qed.

(** A value without syntax characters is replaced where it occurs. *)
Example redactString_literal :
  redactString [("password", "hunter2")] "user bob, pass hunter2, again hunter2!"
  = Some "user bob, pass [REDACTED:password], again [REDACTED:password]!".
Proof. vm_compute. reflexivity. Qed.

(** The other writers of the history store their text as it is: they do
    not read [sensitiveData]. *)
Lemma other_messages_not_redacted (text : string) (st : State) :
  text <> "" ->
  last (history (addPlan (Some text) (-1) st))
  = Some {| role := user; content := Str ("Plan: " +:+ text) |}
  /\ last (history (addModelOutput text st))
     = Some {| role := assistant; content := Str text |}
  /\ last (history (addNewTask text st))
     = Some {| role := user; content := Str ("New task: " +:+ text) |}.
Proof.
  intros Ht. rewrite addPlan_default_appends by exact Ht.
  unfold addModelOutput, addNewTask, _addMessageWithTokens. cbn [history].
  rewrite !last_snoc. done.
Qed.

End AgentProofs.

Module ViewsProofs.
Import Views Agent BatchSpec.

Lemma elem_of_pathHashes (selectorMap : gmap Z DOMNode) (x : string) :
  x ∈ pathHashes selectorMap
  <-> x <> "" /\ exists index node,
                   selectorMap !! index = Some node /\ branchPathHashOf node = Some x.
Proof.
  unfold pathHashes. rewrite elem_of_list_to_set, list_elem_of_filter.
  rewrite list_elem_of_omap. split.
  - intros [Hne ([index node] & Hin & Hx)]. split; [exact Hne|].
    apply elem_of_map_to_list in Hin. by exists index, node.
  - intros [Hne (index & node & Hin & Hx)]. split; [exact Hne|].
    exists (index, node). split; [by apply elem_of_map_to_list | exact Hx].
Qed.

(** C10.  The hash that the new-element check of [multiAct] reads from
    an element of a selector map has the [branchPathHash]
    ['branch-' + tagName + '-' + number of children]: this string is
    what the getter gives, what [e.hash?.branchPathHash] reads, and what
    the element brings into the set of hashes the check compares.  So
    two element nodes with one tag name and one child count give the
    check the same value, whatever their other fields and whatever their
    children are: with the one or the other under an index, the set of
    hashes of the selector map is the same. *)
Theorem hash_branchPath_tag_and_child_count
        (e1 e2 : ElementData) (children1 children2 : list DOMNode)
        (selectorMap : gmap Z DOMNode) (index : Z) :
  tagName e1 = tagName e2 ->
  length children1 = length children2 ->
  branchPathHash (hash e1 children1)
  = "branch-" +:+ tagName e1 +:+ "-" +:+ pretty (length children1)
  /\ branchPathHashOf (DOMElementNode e1 children1)
     = Some ("branch-" +:+ tagName e1 +:+ "-" +:+ pretty (length children1))
  /\ branchPathHashOf (DOMElementNode e1 children1)
     = branchPathHashOf (DOMElementNode e2 children2)
  /\ ("branch-" +:+ tagName e1 +:+ "-" +:+ pretty (length children1))
       ∈ pathHashes (<[index := DOMElementNode e1 children1]> selectorMap)
  /\ pathHashes (<[index := DOMElementNode e1 children1]> selectorMap)
     = pathHashes (<[index := DOMElementNode e2 children2]> selectorMap).
Proof.
  intros Htag Hlen.
  assert (branchPathHashOf (DOMElementNode e1 children1)
          = branchPathHashOf (DOMElementNode e2 children2)) as Hsame
      by (cbn [branchPathHashOf hash branchPathHash]; by rewrite Htag, Hlen).
  split; [reflexivity|]. split; [reflexivity|]. split; [exact Hsame|]. split.
  - apply elem_of_pathHashes. split; [discriminate|].
    exists index, (DOMElementNode e1 children1).
    split; [apply lookup_insert_eq | reflexivity].
  - apply set_eq. intros x. rewrite !elem_of_pathHashes.
    assert (forall (n1 n2 : DOMNode),
              branchPathHashOf n1 = branchPathHashOf n2 ->
              (exists i node, <[index := n1]> selectorMap !! i = Some node
                              /\ branchPathHashOf node = Some x) ->
              exists i node, <[index := n2]> selectorMap !! i = Some node
                             /\ branchPathHashOf node = Some x) as Hswap.
    { intros n1 n2 Heq (i & node & Hi & Hx).
      destruct (decide (i = index)) as [->|Hne].
      - rewrite lookup_insert_eq in Hi. injection Hi as <-.
        exists index, n2. split; [apply lookup_insert_eq | by rewrite <- Heq].
      - rewrite lookup_insert_ne in Hi by congruence.
        exists i, node. split; [by rewrite lookup_insert_ne by congruence | exact Hx]. }
    split; intros [Hne H]; (split; [exact Hne|]).
    + by apply (Hswap _ _ Hsame).
    + by apply (Hswap _ _ (eq_sym Hsame)).
Qed.

(** Two buttons that differ in attributes, location, index, visibility
    and children, with one child each: under index 4 of a selector map
    that holds a link, either gives the check the hash [branch-button-1]
    and the same set of hashes. *)
Lemma hash_branchPath_two_buttons :
  branchPathHashOf payButton = Some "branch-button-1"
  /\ branchPathHashOf closeButton = Some "branch-button-1"
  /\ "branch-button-1" ∈ pathHashes (<[4 := payButton]> {[ 7 := homeLink ]})
  /\ pathHashes (<[4 := payButton]> {[ 7 := homeLink ]})
     = pathHashes (<[4 := closeButton]> {[ 7 := homeLink ]}).
Proof.
  pose proof (hash_branchPath_tag_and_child_count
                {| isVisible := true; tagName := "button";
                   xpath := "/html/body/form/button";
                   attributes := [("type", "submit")]; isInteractive := true;
                   isTopElement := true; isInViewport := true; shadowRoot := false;
                   highlightIndex := Some 4 |}
                {| isVisible := false; tagName := "button";
                   xpath := "/html/body/div[2]/button";
                   attributes := [("class", "close"); ("aria-label", "Close")];
                   isInteractive := true; isTopElement := false; isInViewport := false;
                   shadowRoot := false; highlightIndex := Some 9 |}
                [DOMTextNode true "Pay"] [DOMElementNode defaultElement []]
                {[ 7 := homeLink ]} 4 eq_refl eq_refl)
    as (_ & Hpay & Hsame & Hin & Hsets).
  split; [exact Hpay|]. split; [exact (eq_trans (eq_sym Hsame) Hpay)|].
  split; [exact Hin | exact Hsets].
Defined.

End ViewsProofs.

Module MultiActProofs.
Import Views Agent BatchSpec.

Lemma isSubset_spec (a b : gset string) : _isSubset a b = true <-> a ⊆ b.
Proof.
  unfold _isSubset. rewrite forallb_forall. split.
  - intros H x Hx.
    assert (In x (elements a)) as Hin by (by apply list_elem_of_In, elem_of_elements).
    specialize (H x Hin). by apply bool_decide_eq_true in H.
  - intros H x Hx. apply bool_decide_eq_true, H.
    by apply elem_of_elements, list_elem_of_In.
Qed.

Lemma isSubset_false (a b : gset string) : ¬ (a ⊆ b) -> _isSubset a b = false.
Proof.
  intros H. destruct (_isSubset a b) eqn:E; [|reflexivity].
  by apply isSubset_spec in E.
Qed.

Section Batch.

Context {World : Type}.
Variable getState : World -> World * gmap Z DOMNode.
Variable _raiseIfStoppedOrPaused : World -> World * bool.
Variable executeAction : Action -> World -> World * (ActionResult + string).

Abbreviation loop := (multiActLoop getState _raiseIfStoppedOrPaused executeAction).
Abbreviation thru := (through getState _raiseIfStoppedOrPaused executeAction).

(** One turn of [through] that did not answer [None] was a turn in which
    every test of the loop let the batch go on: this takes the tests one
    by one in the hypothesis [H] (and in the goal, when the loop stands
    there) and leaves the case in which the action was executed. *)
Ltac one_turn H :=
  match type of H with
  | context [getState ?w] => destruct (getState w) as [? ?]
  end;
  match type of H with
  | (if ?guard then None else _) = Some _ => destruct guard; [discriminate|]
  end;
  match type of H with
  | context [_raiseIfStoppedOrPaused ?w1] =>
      destruct (_raiseIfStoppedOrPaused w1) as [? [|]]; [discriminate|]
  end;
  match type of H with
  | (if ?untyped then None else _) = Some _ => destruct untyped; [discriminate|]
  end;
  match type of H with
  | context [executeAction ?a ?w2] =>
      destruct (executeAction a w2) as [? [?result|?]]; [|discriminate]
  end;
  match type of H with
  | (if ?ends then None else _) = Some _ => destruct ends; [discriminate|]
  end.

(** Actions that do not end the batch can be run first. *)
Lemma through_loop n check cached pre :
  forall i w res trace w' res' trace' suffix,
    thru n check cached i pre w res trace = Some (w', res', trace') ->
    loop n check cached i (pre ++ suffix) w res trace
    = loop n check cached (i + length pre)%nat suffix w' res' trace'.
Proof.
  induction pre as [|a pre IH]; intros i w res trace w' res' trace' suffix H.
  - cbn in H. injection H as -> -> ->. cbn [app length]. by rewrite Nat.add_0_r.
  - cbn [through] in H. cbn [app multiActLoop]. one_turn H.
    rewrite (IH _ _ _ _ _ _ _ suffix H). f_equal. cbn [length]. lia.
Qed.

(** They are dispatched, one result each. *)
Lemma through_trace n check cached pre :
  forall i w res trace w' res' trace',
    thru n check cached i pre w res trace = Some (w', res', trace') ->
    trace' = trace ++ pre
    /\ length res' = (length res + length pre)%nat.
Proof.
  induction pre as [|a pre IH]; intros i w res trace w' res' trace' H.
  - cbn in H. injection H as -> -> ->. rewrite app_nil_r. split; [reflexivity | cbn; lia].
  - cbn [through] in H. one_turn H.
    destruct (IH _ _ _ _ _ _ _ H) as [-> Hlen].
    rewrite <- app_assoc. split; [reflexivity|].
    rewrite Hlen, length_app. cbn. lia.
Qed.

(** One turn of the loop at an action that depends on an index, past
    the first, when the current hashes are not all among the cached
    ones. *)
Lemma loop_stops_on_new_element n cached i action rest w res trace :
  dependsOnIndex action i = true ->
  ¬ (pathHashes (snd (getState w)) ⊆ cached) ->
  loop n true cached i (action :: rest) w res trace
  = {| world := fst (getState w);
       results := res ++ [infoResult (newElementsMessage i n)];
       dispatched := trace;
       completion := Completed |}.
Proof.
  intros Hdep Hnew. cbn [multiActLoop].
  destruct (getState w) as [w1 sm]. cbn [fst snd] in *.
  by rewrite Hdep, (isSubset_false _ _ Hnew).
Qed.

(** The stop as the loop has it, for an action with a [getIndex].  With
    [checkForNewElements] enabled, let the
    actions [pre] (at least one) run without ending the batch, and let
    the next action declare an element index.  If the hashes recomputed
    from the current selector map are not all in the set cached at the
    start of the batch (the new set is not a subset of the cached one),
    [multiAct] returns the results of [pre] followed by exactly one
    informational result, and the actions it dispatched are those of
    [pre]: neither the pending action nor a later one is dispatched. *)
Theorem multiAct_stops_on_new_element
        (pre : list Action) (action : Action) (post : list Action)
        (w w' : World) (res' : list ActionResult) (trace' : list Action) :
  let actions := pre ++ action :: post in
  let cached := pathHashes (snd (getState w)) in
  pre <> [] ->
  (exists index, getIndex action = Some (Some index)) ->
  thru (length actions) true cached 0 pre (fst (getState w)) [] [] = Some (w', res', trace') ->
  ¬ (pathHashes (snd (getState w')) ⊆ cached) ->
  multiAct getState _raiseIfStoppedOrPaused executeAction actions true w
  = {| world := fst (getState w');
       results := res' ++ [infoResult (newElementsMessage (length pre) (length actions))];
       dispatched := pre;
       completion := Completed |}
  /\ length res' = length pre.
Proof.
  intros actions cached Hpre (index & Hidx) Hthru Hnew.
  destruct (through_trace _ _ _ _ _ _ _ _ _ _ _ Hthru) as [-> Hlen].
  split; [|exact Hlen].
  unfold multiAct. fold actions.
  destruct (getState w) as [w0 sm0] eqn:Hw. cbn [fst snd] in *. fold cached.
  unfold actions at 2.
  rewrite (through_loop _ _ _ _ _ _ _ _ _ _ _ (action :: post) Hthru).
  cbn [Nat.add]. rewrite loop_stops_on_new_element; [reflexivity| |exact Hnew].
  unfold dependsOnIndex. rewrite Hidx.
  destruct pre; [done|reflexivity].
Qed.

(** An action without [getIndex] never reaches the comparison: for a
    batch of such actions the flag makes no difference. *)
Lemma loop_without_accessor n cached (actions : list Action) :
  Forall (fun action => getIndex action = None) actions ->
  forall i w res trace,
    loop n true cached i actions w res trace
    = loop n false cached i actions w res trace.
Proof.
  induction 1 as [|action actions Hnone _ IH]; intros i w res trace; [reflexivity|].
  cbn [multiActLoop]. destruct (getState w) as [w1 sm].
  unfold dependsOnIndex. rewrite Hnone. cbn [andb].
  destruct (_raiseIfStoppedOrPaused w1) as [w2 [|]]; [reflexivity|].
  destruct (bool_decide (actionType action = "")); [reflexivity|].
  destruct (executeAction action w2) as [w3 [result|message]]; [|reflexivity].
  destruct (isDone result || truthy (error result) || Nat.eqb i (n - 1));
    [reflexivity | apply IH].
Qed.

Lemma multiAct_without_accessor (actions : list Action) (w : World) :
  Forall (fun action => getIndex action = None) actions ->
  multiAct getState _raiseIfStoppedOrPaused executeAction actions true w
  = multiAct getState _raiseIfStoppedOrPaused executeAction actions false w.
Proof.
  intros Hnone. unfold multiAct. destruct (getState w) as [w0 sm0].
  by apply loop_without_accessor.
Qed.

End Batch.

(** C1.  The stop is not taken for the actions the agent runs.  The
    scenario of the claim, with the three actions as the registry's
    action model builds them: a dialog appears after the first action,
    so the recomputed hashes are not all among the cached ones, and the
    second action acts on an index; yet all three actions are
    dispatched, the results are their three results, and no
    informational result is appended.  In general, since such an action
    has no [getIndex], the comparison is not made for it: a batch of
    them runs with [checkForNewElements] as it runs without. *)
Theorem multiAct_registry_actions_run_on :
  ¬ (pathHashes (snd (dialogAppears 1%nat)) ⊆ pathHashes (snd (dialogAppears 0%nat)))
  /\ multiAct dialogAppears neverStopped alwaysOk
              [clickElement; inputText; scroll] true 0%nat
     = {| world := 3%nat;
          results := [okResult; okResult; okResult];
          dispatched := [clickElement; inputText; scroll];
          completion := Completed |}
  /\ forall (World : Type) (getState : World -> World * gmap Z DOMNode)
            (_raiseIfStoppedOrPaused : World -> World * bool)
            (executeAction : Action -> World -> World * (ActionResult + string))
            (batch : list (string * string)) (w : World),
       multiAct getState _raiseIfStoppedOrPaused executeAction
                (List.map (fun a => DynamicActionModel (fst a) (snd a)) batch) true w
       = multiAct getState _raiseIfStoppedOrPaused executeAction
                  (List.map (fun a => DynamicActionModel (fst a) (snd a)) batch) false w.
Proof.
  split; [|split].
  - intros Hsub. apply (bool_decide_eq_true_2 _) in Hsub.
    vm_compute in Hsub. discriminate.
  - vm_compute. reflexivity.
  - intros World getState _raiseIfStoppedOrPaused executeAction batch w.
    apply multiAct_without_accessor.
    induction batch as [|a batch IH]; [apply List.Forall_nil|].
    cbn [List.map]. apply List.Forall_cons; [reflexivity | exact IH].
Qed.

(** The scenario with actions that have a [getIndex]: three actions,
    the second needs an index, a dialog appears after the first.  The
    batch returns the result of the first action and the informational
    result; only the first action was dispatched. *)
Lemma multiAct_dialog_appears :
  multiAct dialogAppears neverStopped alwaysOk [clickFirst; typeInFirst; scrollDown] true 0%nat
  = {| world := 1%nat;
       results := [okResult; infoResult "Something new appeared after action 1 / 3"];
       dispatched := [clickFirst];
       completion := Completed |}.
Proof.
  refine (proj1 (multiAct_stops_on_new_element dialogAppears neverStopped alwaysOk
                   [clickFirst] typeInFirst [scrollDown] 0%nat 1%nat [okResult] [clickFirst]
                   _ _ _ _)).
  - discriminate.
  - by exists 0.
  - reflexivity.
  - intros Hsub. apply (bool_decide_eq_true_2 _) in Hsub.
    vm_compute in Hsub. discriminate.
Defined.

(** The test is for a subset.  A dialog that was there at the start is
    gone after the first action: the recomputed set is not a superset of
    the cached one, yet the second action, which has a [getIndex], and
    the third are dispatched, and no informational result is appended. *)
Lemma multiAct_not_superset_runs_on :
  ¬ (pathHashes (snd (dialogCloses 0%nat)) ⊆ pathHashes (snd (dialogCloses 1%nat)))
  /\ multiAct dialogCloses neverStopped alwaysOk
              [clickFirst; typeInFirst; scrollDown] true 0%nat
     = {| world := 3%nat;
          results := [okResult; okResult; okResult];
          dispatched := [clickFirst; typeInFirst; scrollDown];
          completion := Completed |}.
Proof.
  split.
  - intros Hsub. apply (bool_decide_eq_true_2 _) in Hsub.
    vm_compute in Hsub. discriminate.
  - vm_compute. reflexivity.
Qed.

End MultiActProofs.

Module DomServiceProofs.
Import Views DomService.

(** C8.  A payload that is absent, or lacks the node map or the root id,
    makes [_constructDomTree] return the placeholder body element, which
    has no children, with an empty selector map; [_buildDomTree] hands
    this pair to its caller. *)
Theorem constructDomTree_malformed (evalPage : option EvalPage) :
  malformed evalPage = true ->
  _constructDomTree evalPage
  = {| root := FreshRoot placeholderBody; heap := ∅; selectorMap := ∅ |}
  /\ _buildDomTree (Some 2) (EvalValue evalPage) = _constructDomTree evalPage.
Proof.
  intros H. split; [|reflexivity].
  destruct evalPage as [[[entries|] [r|]]|]; cbn in *; try reflexivity.
  by rewrite H.
Qed.

Lemma constructDomTree_no_map :
  malformed (Some noMapPage) = true
  /\ _constructDomTree (Some noMapPage)
     = {| root := FreshRoot placeholderBody; heap := ∅; selectorMap := ∅ |}.
Proof.
  split; [reflexivity|].
  exact (proj1 (constructDomTree_malformed (Some noMapPage) eq_refl)).
Defined.

(** [_buildDomTree] answers with a snapshot whatever the page did. *)
Lemma buildDomTree_fallback (probe : Evaluation) :
  _buildDomTree None probe
  = {| root := FreshRoot defaultElement; heap := ∅; selectorMap := ∅ |}
  /\ _buildDomTree (Some 2) EvalThrew
     = {| root := FreshRoot defaultElement; heap := ∅; selectorMap := ∅ |}.
Proof. split; reflexivity. Qed.

(** The specification's scenario. *)
Example constructDomTree_hello :
  let s := _constructDomTree (Some helloPage) in
  root s = RootRef "1"
  /\ selectorMap s = {[ 0 := "2" ]}
  /\ children <$> heap s !! "1" = Some ["2"; "3"]
  /\ parent <$> heap s !! "2" = Some (Some "1").
Proof. vm_compute. repeat split; reflexivity. Qed.

(** ** The selector map against the built nodes *)




(** The second loop changes links only: what a node is stays. *)
Lemma linkChild_kind p nodeMap c id :
  kind <$> linkChild p nodeMap c !! id = kind <$> nodeMap !! id.
Proof.
  unfold linkChild. case_bool_decide; [reflexivity|].
  destruct (resolves nodeMap c); [|reflexivity].
  rewrite !lookup_alter. repeat case_decide; subst;
    rewrite ?lookup_alter; repeat case_decide; try congruence;
    destruct (nodeMap !! id); reflexivity.
Qed.

Lemma linkChild_fold_kind p cs :
  forall nodeMap id,
    kind <$> foldl (linkChild p) nodeMap cs !! id = kind <$> nodeMap !! id.
Proof.
  induction cs as [|c cs IH]; intros nodeMap id; [reflexivity|].
  cbn [foldl]. by rewrite IH, linkChild_kind.
Qed.

Lemma wireNode_kind nodeMap entry id :
  kind <$> wireNode nodeMap entry !! id = kind <$> nodeMap !! id.
Proof.
  unfold wireNode. destruct entry as [p [nd|]]; [|reflexivity].
  destruct (nd_children nd); [|reflexivity].
  destruct (resolves nodeMap p); [|reflexivity].
  apply linkChild_fold_kind.
Qed.

Lemma wireNode_fold_kind entries :
  forall nodeMap id,
    kind <$> foldl wireNode nodeMap entries !! id = kind <$> nodeMap !! id.
Proof.
  induction entries as [|e entries IH]; intros nodeMap id; [reflexivity|].
  cbn [foldl]. by rewrite IH, wireNode_kind.
Qed.










(** Two nodes of the tree with one index: the later entry of the payload
    holds the key, the earlier node is not stored under its index. *)
Lemma constructDomTree_index_clash :
  let s := _constructDomTree (Some clashPage) in
  reachable s "2"
  /\ indexOf <$> heap s !! "2" = Some (Some 0)
  /\ selectorMap s !! 0 = Some "3"
  /\ ¬ selectorBijection s.
Proof.
  intros s.
  assert (reachable s "2") as Hr.
  { eapply (reach_child s "1"); [by apply reach_root | vm_compute; reflexivity |].
    cbn. set_solver. }
  split; [exact Hr|]. split; [vm_compute; reflexivity|].
  split; [vm_compute; reflexivity|].
  intros [_ Hnode].
  assert (exists n, heap s !! "2" = Some n /\ indexOf n = Some 0) as (n & Hn & Hi).
  { eexists. split; [vm_compute; reflexivity|reflexivity]. }
  specialize (Hnode "2" n 0 Hr Hn Hi). vm_compute in Hnode. discriminate.
Qed.

End DomServiceProofs.

Module HistoryProofs.
Import Views HistoryTreeProcessor.

Lemma find_app {A} (f : A -> bool) (l1 l2 : list A) :
  List.find f (l1 ++ l2)
  = match List.find f l1 with Some x => Some x | None => List.find f l2 end.
Proof.
  induction l1 as [|x l1 IH]; [reflexivity|].
  cbn [app List.find]. destruct (f x); [reflexivity | exact IH].
Qed.

(** ** The indexed nodes and the positions of a tree *)

Lemma indexedNodes_element ancestors pos e cs :
  indexedNodes ancestors pos (DOMElementNode e cs)
  = (if bool_decide (highlightIndex e <> None)
     then [(ancestors, pos, DOMElementNode e cs)] else [])
    ++ indexedChildren (ancestors ++ [e]) pos cs 0.
Proof.
  cbn [indexedNodes]. f_equal. generalize 0%nat.
  induction cs as [|c cs IH]; intros k; [reflexivity|].
  cbn [indexedChildren]. by rewrite <- IH.
Qed.

(** An entry of [indexedNodes] is an indexed element node of the tree,
    listed with the position it stands at. *)
Lemma indexedNodes_nodeAt node :
  forall ancestors pos a p n,
    (a, p, n) ∈ indexedNodes ancestors pos node ->
    exists rel, p = pos ++ rel
                /\ nodeAt ancestors node rel = Some (a, n)
                /\ exists e cs, n = DOMElementNode e cs /\ highlightIndex e <> None.
Proof.
  induction node as [visible text | e cs IH] using DOMNode_forall_ind;
    intros ancestors pos a p n Hin.
  - cbn in Hin. by apply elem_of_nil in Hin.
  - rewrite indexedNodes_element in Hin. apply elem_of_app in Hin as [Hin|Hin].
    + case_bool_decide as Hidx; [|by apply elem_of_nil in Hin].
      apply list_elem_of_singleton in Hin. injection Hin as -> -> ->.
      exists []. rewrite app_nil_r. split; [reflexivity|]. split; [reflexivity|].
      by exists e, cs.
    + assert (forall k, (a, p, n) ∈ indexedChildren (ancestors ++ [e]) pos cs k ->
                exists j rel, p = pos ++ (k + j)%nat :: rel
                              /\ (exists c, cs !! j = Some c
                                            /\ nodeAt (ancestors ++ [e]) c rel = Some (a, n))
                              /\ exists e' cs', n = DOMElementNode e' cs'
                                                /\ highlightIndex e' <> None) as Hchildren.
      { clear Hin. induction cs as [|c cs IHcs]; intros k Hin.
        - by apply elem_of_nil in Hin.
        - cbn [indexedChildren] in Hin. apply Forall_cons in IH as [IHc IHrest].
          apply elem_of_app in Hin as [Hin|Hin].
          + destruct (IHc _ _ _ _ _ Hin) as (rel & -> & Hat & Hel).
            exists 0%nat, rel. rewrite Nat.add_0_r, <- app_assoc.
            split; [reflexivity|]. split; [by exists c | exact Hel].
          + destruct (IHcs IHrest _ Hin) as (j & rel & -> & (c' & Hc' & Hat) & Hel).
            exists (S j), rel. replace (k + S j)%nat with (S k + j)%nat by lia.
            split; [reflexivity|]. split; [by exists c' | exact Hel]. }
      destruct (Hchildren _ Hin) as (j & rel & -> & (c & Hc & Hat) & Hel).
      exists (j :: rel). split; [reflexivity|]. cbn [nodeAt]. rewrite Hc.
      split; [exact Hat | exact Hel].
Qed.

(** An indexed element node of the tree is an entry of [indexedNodes]. *)
Lemma nodeAt_indexedNodes node :
  forall ancestors pos rel a e cs,
    nodeAt ancestors node rel = Some (a, DOMElementNode e cs) ->
    highlightIndex e <> None ->
    (a, pos ++ rel, DOMElementNode e cs) ∈ indexedNodes ancestors pos node.
Proof.
  induction node as [visible text | e0 cs0 IH] using DOMNode_forall_ind;
    intros ancestors pos rel a e cs Hat Hidx.
  - destruct rel; cbn in Hat; discriminate.
  - rewrite indexedNodes_element. destruct rel as [|j rel].
    + cbn in Hat. injection Hat as <- <- <-. rewrite app_nil_r.
      rewrite bool_decide_eq_true_2 by exact Hidx. apply elem_of_app. left.
      by apply list_elem_of_singleton.
    + cbn [nodeAt] in Hat. destruct (cs0 !! j) as [c|] eqn:Hc; [|discriminate].
      apply elem_of_app. right.
      assert (forall k, (a, pos ++ (k + j)%nat :: rel, DOMElementNode e cs)
                        ∈ indexedChildren (ancestors ++ [e0]) pos cs0 k) as Hchildren.
      { revert j Hc. induction cs0 as [|c0 cs0 IHcs]; intros j Hc k.
        - by rewrite lookup_nil in Hc.
        - cbn [indexedChildren]. apply Forall_cons in IH as [IHc IHrest].
          apply elem_of_app. destruct j as [|j].
          + left. cbn in Hc. injection Hc as ->. rewrite Nat.add_0_r.
            replace (pos ++ k :: rel) with ((pos ++ [k]) ++ rel)
              by (by rewrite <- app_assoc).
            by apply IHc.
          + right. cbn in Hc. replace (k + S j)%nat with (S k + j)%nat by lia.
            by apply IHcs. }
      exact (Hchildren 0%nat).
Qed.

Section Hashing.

Variable _createHash : string -> string.

Abbreviation hashOf := (_hashDomElement _createHash).
Abbreviation hashOfRecord := (_hashDomHistoryElement _createHash).
Abbreviation search := (processNode _createHash).
Abbreviation searchChildren := (processChildren _createHash).
Abbreviation matches := (matchesAt _createHash).

Lemma sameHashes_refl a : sameHashes a a = true.
Proof. unfold sameHashes. by rewrite !bool_decide_eq_true_2. Qed.

(** The hashes of a record are those of the element it was made from. *)
Lemma hash_of_converted ancestors e :
  hashOfRecord (convertDomElementToHistoryElement ancestors e) = hashOf ancestors e.
Proof. reflexivity. Qed.

Lemma processNode_element hashed ancestors pos e cs :
  search hashed ancestors pos (DOMElementNode e cs)
  = if bool_decide (highlightIndex e <> None)
       && sameHashes (hashOf ancestors e) hashed
    then Some (pos, DOMElementNode e cs)
    else searchChildren hashed (ancestors ++ [e]) pos cs 0.
Proof.
  cbn [processNode]. destruct (_ && _); [reflexivity|]. generalize 0%nat.
  induction cs as [|c cs IH]; intros k; [reflexivity|].
  cbn [processChildren]. destruct c; by rewrite <- IH.
Qed.

(** The walk answers with the first indexed node, in document order,
    that has the three hashes, and with [None] when there is none. *)
Lemma processNode_first_match hashed node :
  forall ancestors pos,
    search hashed ancestors pos node
    = located <$> List.find (matches hashed) (indexedNodes ancestors pos node).
Proof.
  induction node as [visible text | e cs IH] using DOMNode_forall_ind;
    intros ancestors pos; [reflexivity|].
  rewrite processNode_element, indexedNodes_element.
  assert (forall k, searchChildren hashed (ancestors ++ [e]) pos cs k
                    = located <$> List.find (matches hashed)
                                    (indexedChildren (ancestors ++ [e]) pos cs k))
    as Hchildren.
  { induction cs as [|c cs IHcs]; intros k; [reflexivity|].
    apply Forall_cons in IH as [IHc IHrest].
    cbn [processChildren indexedChildren]. rewrite find_app.
    destruct c as [visible text | e' cs'].
    - cbn [indexedNodes List.find]. by apply IHcs.
    - rewrite IHc.
      destruct (List.find (matches hashed) (indexedNodes _ _ (DOMElementNode e' cs')));
        [reflexivity | by apply IHcs]. }
  case_bool_decide as Hidx; cbn [andb app].
  - cbn [List.find matchesAt].
    destruct (sameHashes (hashOf ancestors e) hashed); [reflexivity | apply Hchildren].
  - apply Hchildren.
Qed.

Lemma find_first_match (h : DOMHistoryElement) (tree : DOMNode) :
  findHistoryElementInTree _createHash h tree
  = located <$> List.find (matches (hashOfRecord h)) (indexedNodes [] [] tree).
Proof. apply processNode_first_match. Qed.

Lemma find_skips {A} (f : A -> bool) (before : list A) (x : A) (after : list A) :
  (forall y, y ∈ before -> f y = false) -> f x = true ->
  List.find f (before ++ x :: after) = Some x.
Proof.
  intros Hbefore Hx. induction before as [|y before IH]; cbn [app List.find].
  - by rewrite Hx.
  - rewrite (Hbefore y) by (by left). apply IH. intros z Hz. apply Hbefore. by right.
Qed.

Lemma first_match_found hashed tree before x after :
  indexedNodes [] [] tree = before ++ x :: after ->
  (forall y, y ∈ before -> matches hashed y = false) ->
  matches hashed x = true ->
  search hashed [] [] tree = Some (located x).
Proof.
  intros Hsplit Hbefore Hx.
  by rewrite processNode_first_match, Hsplit, (find_skips _ _ _ _ Hbefore Hx).
Qed.

(** C4, as the code has it.  Let the element a record was made from be
    an indexed node of the tree, and let no indexed node that comes
    before it in document order have the same three hashes.  Then
    [findHistoryElementInTree] on the record and the tree returns that
    node, at its place.  In general the search is the walk in document
    order over the indexed nodes: it returns the first whose three hashes
    equal those of the record, and [null] when no indexed node has
    them. *)
Theorem findHistoryElementInTree_round_trip
        (tree : DOMNode) (ancestors : list ElementData) (pos : Position)
        (e : ElementData) (cs : list DOMNode)
        (before after : list (list ElementData * Position * DOMNode)) :
  indexedNodes [] [] tree = before ++ (ancestors, pos, DOMElementNode e cs) :: after ->
  (forall entry, entry ∈ before -> matches (hashOf ancestors e) entry = false) ->
  findHistoryElementInTree _createHash
    (convertDomElementToHistoryElement ancestors e) tree
  = Some (pos, DOMElementNode e cs)
  /\ nodeAt [] tree pos = Some (ancestors, DOMElementNode e cs)
  /\ forall h,
       findHistoryElementInTree _createHash h tree
       = located <$> List.find (matches (hashOfRecord h)) (indexedNodes [] [] tree).
Proof.
  intros Hsplit Hbefore. split; [|split].
  - unfold findHistoryElementInTree. rewrite hash_of_converted.
    rewrite (first_match_found _ _ _ _ _ Hsplit Hbefore); [reflexivity|].
    cbn [matchesAt]. apply sameHashes_refl.
  - assert ((ancestors, pos, DOMElementNode e cs) ∈ indexedNodes [] [] tree) as Hin.
    { rewrite Hsplit. apply elem_of_app. right. by left. }
    destruct (indexedNodes_nodeAt _ _ _ _ _ _ Hin) as (rel & -> & Hat & _).
    exact Hat.
  - intros h. apply find_first_match.
Qed.

(** The same with the hypotheses on the tree itself: the element stands
    at [pos], it is indexed, and every indexed node with its three hashes
    stands at [pos]. *)
Lemma findHistoryElementInTree_unique
      (tree : DOMNode) (ancestors : list ElementData) (pos : Position)
      (e : ElementData) (cs : list DOMNode) :
  nodeAt [] tree pos = Some (ancestors, DOMElementNode e cs) ->
  highlightIndex e <> None ->
  (forall entry, entry ∈ indexedNodes [] [] tree ->
                 matches (hashOf ancestors e) entry = true -> entry.1.2 = pos) ->
  findHistoryElementInTree _createHash
    (convertDomElementToHistoryElement ancestors e) tree
  = Some (pos, DOMElementNode e cs).
Proof.
  intros Hat Hidx Hunique.
  pose proof (nodeAt_indexedNodes tree [] [] pos ancestors e cs Hat Hidx) as Hin.
  cbn [app] in Hin.
  rewrite find_first_match, hash_of_converted.
  destruct (List.find (matches (hashOf ancestors e)) (indexedNodes [] [] tree))
    as [[[a p] n]|] eqn:Hfind.
  - apply List.find_some in Hfind as [Hy Hm]. apply list_elem_of_In in Hy.
    pose proof (Hunique _ Hy Hm) as Hp. cbn in Hp. subst p.
    destruct (indexedNodes_nodeAt _ _ _ _ _ _ Hy) as (rel & Hrel & Hat' & _).
    cbn [app] in Hrel. subst rel. rewrite Hat in Hat'. injection Hat' as <- <-.
    reflexivity.
  - pose proof (List.find_none _ _ Hfind _ (proj1 (list_elem_of_In _ _) Hin)) as Hm.
    cbn [matchesAt] in Hm. by rewrite sameHashes_refl in Hm.
Qed.

End Hashing.

(** On a page with a form, with the identity standing in for the digest:
    the record made from the button finds the button, after the field
    that comes before it was compared and passed over. *)
Lemma findHistoryElementInTree_form_button :
  findHistoryElementInTree (fun input => input)
    (convertDomElementToHistoryElement [bareRoot; formElement] formButton) formTree
  = Some ([1; 1]%nat, DOMElementNode formButton [DOMTextNode true "Go"]).
Proof.
  refine (proj1 (findHistoryElementInTree_round_trip (fun input => input) formTree
                   [bareRoot; formElement] [1; 1]%nat formButton [DOMTextNode true "Go"]
                   [([bareRoot; formElement], [1; 0]%nat, DOMElementNode formField [])]
                   [] _ _)).
  - reflexivity.
  - intros entry Hin. apply list_elem_of_singleton in Hin. subst entry.
    vm_compute. reflexivity.
Defined.

(** C4 as stated fails.  The record is made from the root of a tree, an
    element without a highlight index; the search compares indexed nodes
    only and returns [null], whatever the digest is. *)
Lemma findHistoryElementInTree_unindexed_element :
  nodeAt [] (DOMElementNode bareRoot []) [] = Some ([], DOMElementNode bareRoot [])
  /\ forall _createHash,
       findHistoryElementInTree _createHash
         (convertDomElementToHistoryElement [] bareRoot) (DOMElementNode bareRoot [])
       = None.
Proof. split; reflexivity. Qed.

(** Nor is being indexed enough.  Two indexed links with the same tag,
    index, attributes and location have the same three hashes: the record
    made from the second one finds the first, whatever the digest is. *)
Lemma findHistoryElementInTree_first_twin :
  nodeAt [] twinTree [1%nat] = Some ([bareRoot], DOMElementNode (twinLink false) [])
  /\ forall _createHash,
       findHistoryElementInTree _createHash
         (convertDomElementToHistoryElement [bareRoot] (twinLink false)) twinTree
       = Some ([0%nat], DOMElementNode (twinLink true) []).
Proof.
  split; [reflexivity|]. intros _createHash.
  apply (first_match_found _createHash _ twinTree []
           ([bareRoot], [0%nat], DOMElementNode (twinLink true) [])
           [([bareRoot], [1%nat], DOMElementNode (twinLink false) [])]).
  - reflexivity.
  - intros y Hy. by apply elem_of_nil in Hy.
  - exact (sameHashes_refl (_hashDomElement _createHash [bareRoot] (twinLink true))).
Qed.

End HistoryProofs.

Module MessageFacts.
Import MessageManager WindowSpec Accounting MessageManagerProofs.

Lemma sumTokens_app (l1 l2 : list Message) :
  sumTokens (l1 ++ l2) = sumTokens l1 + sumTokens l2.
Proof.
  unfold sumTokens. induction l1 as [|m l1 IH]; cbn [app foldr]; lia.
Qed.

Lemma sumTokens_snoc (l : list Message) (m : Message) :
  sumTokens (l ++ [m]) = sumTokens l + messageTokens (content m).
Proof. rewrite sumTokens_app. cbn. lia. Qed.

Lemma last_removelast (l : list Message) (m : Message) :
  last l = Some m -> l = removelast l ++ [m].
Proof.
  intros H. destruct l as [|x l] using rev_ind; [discriminate|].
  rewrite last_snoc in H. injection H as ->. by rewrite removelast_last.
Qed.

Lemma accounted_add (m : Message) (st : State) :
  accounted st -> accounted (_addMessageWithTokens m st).
Proof.
  unfold accounted, _addMessageWithTokens. cbn [history currentTokens].
  intros ->. by rewrite sumTokens_snoc.
Qed.

Lemma accounted_addPlan (plan : option string) (position : Z) (st : State) :
  accounted st -> accounted (addPlan plan position st).
Proof.
  intros H. unfold addPlan. destruct plan as [[|c p]|]; try exact H.
  case_bool_decide; [by apply accounted_add|].
  unfold accounted in *. cbn [history currentTokens content contentLength].
  rewrite sumTokens_app. cbn [sumTokens foldr].
  fold (sumTokens (drop (spliceIndex position (length (history st))) (history st))).
  rewrite H. rewrite <- (take_drop (spliceIndex position (length (history st)))
                                    (history st)) at 1.
  rewrite sumTokens_app. cbn [messageTokens content]. lia.
Qed.

Lemma accounted_removeLast (st : State) :
  accounted st -> accounted (_removeLastStateMessage st).
Proof.
  intros H. unfold _removeLastStateMessage.
  destruct (last (history st)) as [m|] eqn:Hlast; [|exact H].
  destruct (role m); try exact H.
  unfold accounted in *. cbn [history currentTokens].
  rewrite H. rewrite (last_removelast _ _ Hlast) at 1.
  rewrite sumTokens_snoc. lia.
Qed.

Lemma accounted_cut (st : State) :
  textHeads st -> accounted st -> accounted (fst (cutMessages st)).
Proof.
  intros Htext H. destruct (decide (currentTokens st <= maxTokens st)) as [Hle|Hgt].
  { unfold cutMessages. by rewrite bool_decide_eq_true_2. }
  destruct (history st) as [|sys [|task rest]] eqn:Hh.
  - unfold cutMessages. by rewrite bool_decide_eq_false_2, Hh.
  - unfold cutMessages. by rewrite bool_decide_eq_false_2, Hh.
  - rewrite (cutMessages_over st sys task rest Hh) by lia.
    unfold accounted. cbn [fst history currentTokens].
    unfold textHeads in Htext. rewrite Hh in Htext.
    destruct Htext as [[s0 H0] [s1 H1]].
    destruct sys as [r0 c0], task as [r1 c1]. cbn in H0, H1. subst c0 c1.
    apply windowTokens_text.
Qed.

(** X1.  The running total stays the sum of the estimates of the stored
    messages through every writer of the history: appending a message,
    adding a plan at any position, adding a model output or a new task,
    removing the last state message, and, when the two leading messages
    hold text, trimming. *)
Theorem token_total_is_sum_of_estimates (st : State) :
  accounted st ->
  (forall m, accounted (_addMessageWithTokens m st))
  /\ (forall plan position, accounted (addPlan plan position st))
  /\ (forall json, accounted (addModelOutput json st))
  /\ (forall task, accounted (addNewTask task st))
  /\ accounted (_removeLastStateMessage st)
  /\ (textHeads st -> accounted (fst (cutMessages st))).
Proof.
  intros H. repeat split.
  - intros m. by apply accounted_add.
  - intros plan position. by apply accounted_addPlan.
  - intros json. by apply accounted_add.
  - intros task. by apply accounted_add.
  - by apply accounted_removeLast.
  - intros Ht. by apply accounted_cut.
Qed.

(** A manager as the constructor builds it from an empty state, after a
    state message and a plan put in front of it. *)
Lemma token_total_fresh_manager :
  accounted (state Scenarios.freshManager)
  /\ accounted (addPlan (Some "search first") 2
                  (_addMessageWithTokens Scenarios.pageMessage
                     (state Scenarios.freshManager))).
Proof.
  assert (accounted (state Scenarios.freshManager)) as H0 by reflexivity.
  split; [exact H0|].
  apply (token_total_is_sum_of_estimates
           (_addMessageWithTokens Scenarios.pageMessage (state Scenarios.freshManager))).
  exact (proj1 (token_total_is_sum_of_estimates _ H0) Scenarios.pageMessage).
Defined.

Lemma remove_added_user (c : Content) (st : State) :
  _removeLastStateMessage (_addMessageWithTokens {| role := user; content := c |} st) = st.
Proof.
  unfold _removeLastStateMessage, _addMessageWithTokens. cbn [history currentTokens maxTokens].
  rewrite last_snoc. cbn [role content].
  rewrite removelast_last. destruct st as [h t m]. cbn. f_equal. lia.
Qed.

(** X2.  Appending a user message and then removing the last state
    message gives the state back, history and total; a message of
    another role is left in place by the removal. *)
Theorem add_then_remove_last (c : Content) (st : State) :
  _removeLastStateMessage (_addMessageWithTokens {| role := user; content := c |} st) = st
  /\ _removeLastStateMessage
       (_addMessageWithTokens {| role := assistant; content := c |} st)
     = _addMessageWithTokens {| role := assistant; content := c |} st
  /\ _removeLastStateMessage
       (_addMessageWithTokens {| role := system; content := c |} st)
     = _addMessageWithTokens {| role := system; content := c |} st.
Proof.
  split; [apply remove_added_user|].
  unfold _removeLastStateMessage, _addMessageWithTokens. cbn [history currentTokens maxTokens].
  rewrite !last_snoc. cbn [role content]. split; reflexivity.
Qed.

(** X3.  Removing the last state message leaves the two leading messages
    in place when the history holds at least three messages. *)
Theorem removeLast_keeps_heads (st : State) :
  (3 <= length (history st))%nat ->
  take 2 (history (_removeLastStateMessage st)) = take 2 (history st).
Proof.
  intros Hlen. unfold _removeLastStateMessage.
  destruct (last (history st)) as [m|] eqn:Hlast; [|reflexivity].
  destruct (role m); try reflexivity. cbn [history].
  rewrite (last_removelast _ _ Hlast) in Hlen |- * at 2.
  rewrite length_app in Hlen. cbn in Hlen.
  rewrite take_app_le by lia. reflexivity.
Qed.

Lemma removeLast_keeps_heads_scenario :
  take 2 (history (_removeLastStateMessage scenarioState))
  = [textMessage system 800; textMessage user 400].
Proof.
  rewrite (removeLast_keeps_heads scenarioState); [reflexivity|].
  cbn. lia.
Defined.

(** X4.  Right after construction from an empty state the last message
    is the task, a user message: removing the last state message then
    evicts the task and leaves the system message alone. *)
Theorem removeLast_after_construction_evicts_task
        (task : string) (systemMessage : Message) (s : Settings) :
  history (_removeLastStateMessage
             (state (newMessageManager task systemMessage s emptyState)))
  = [systemMessage].
Proof. reflexivity. Qed.

End MessageFacts.

Module AgentFacts.
Import MessageManager Views Agent BatchSpec BatchShape Scenarios.

Section Batch.

Context {World : Type}.
Variable getState : World -> World * gmap Z DOMNode.
Variable _raiseIfStoppedOrPaused : World -> World * bool.
Variable executeAction : Action -> World -> World * (ActionResult + string).

Abbreviation loop := (multiActLoop getState _raiseIfStoppedOrPaused executeAction).

Lemma removelast_cons_good (r : ActionResult) (rs : list ActionResult) :
  goesOn r -> Forall goesOn (removelast rs) -> Forall goesOn (removelast (r :: rs)).
Proof.
  intros Hr Hrs. destruct rs as [|r' rs]; [constructor|].
  change (removelast (r :: r' :: rs)) with (r :: removelast (r' :: rs)).
  by constructor.
Qed.

(** What one run of the loop adds to the results and to the dispatched
    actions. *)
Lemma loop_shape n check cached (actions : list Action) :
  forall i w res trace,
    exists d r,
      dispatched (loop n check cached i actions w res trace) = trace ++ d
      /\ results (loop n check cached i actions w res trace) = res ++ r
      /\ d `prefix_of` actions
      /\ (length d <= length r <= length actions)%nat
      /\ Forall goesOn (removelast r).
Proof.
  induction actions as [|a actions IH]; intros i w res trace.
  - exists [], []. cbn. rewrite !app_nil_r. repeat split; [done|lia|lia|constructor].
  - cbn [multiActLoop]. destruct (getState w) as [w1 sm].
    destruct (dependsOnIndex a i && check && _).
    { exists [], [infoResult (newElementsMessage i n)]. cbn.
      rewrite app_nil_r. repeat split; [apply prefix_nil|lia|lia|constructor]. }
    destruct (_raiseIfStoppedOrPaused w1) as [w2 [|]].
    { exists [], []. cbn. rewrite !app_nil_r.
      repeat split; [apply prefix_nil|lia|lia|constructor]. }
    case_bool_decide.
    { exists [], [errorResult "Action type not specified"]. cbn.
      rewrite app_nil_r. repeat split; [apply prefix_nil|lia|lia|constructor]. }
    destruct (executeAction a w2) as [w3 [result|msg]].
    + destruct (isDone result || truthy (error result) || Nat.eqb i (n - 1)) eqn:Hend.
      * exists [a], [result]. cbn.
        repeat split; [by apply prefix_cons, prefix_nil|lia|lia|constructor].
      * apply orb_false_iff in Hend as [Hend _].
        apply orb_false_iff in Hend as [Hdone Herr].
        destruct (IH (S i) w3 (res ++ [result]) (trace ++ [a])) as (d & r & Hd & Hr & Hp & Hl & Hg).
        exists (a :: d), (result :: r). rewrite Hd, Hr, <- !app_assoc. cbn [app length].
        repeat split; [by apply prefix_cons|lia|lia|].
        by apply removelast_cons_good.
    + exists [a], [errorResult msg]. cbn.
      repeat split; [by apply prefix_cons, prefix_nil|lia|lia|constructor].
Qed.

(** X5.  Whatever the browser and the controller do, a batch dispatches
    a prefix of its actions, in order; it returns at most one result per
    action and at least one per dispatched action; and every result but
    the last is neither done nor an error: a done or failed action is
    always the last one of the results. *)
Theorem multiAct_shape (actions : list Action) (check : bool) (w : World) :
  let run := multiAct getState _raiseIfStoppedOrPaused executeAction actions check w in
  dispatched run `prefix_of` actions
  /\ (length (dispatched run) <= length (results run) <= length actions)%nat
  /\ Forall goesOn (removelast (results run)).
Proof.
  unfold multiAct. destruct (getState w) as [w0 sm0].
  destruct (loop_shape (length actions) check (pathHashes sm0) actions 0%nat w0 [] [])
    as (d & r & Hd & Hr & Hp & Hl & Hg).
  cbn zeta. rewrite Hd, Hr. cbn [app]. repeat split; try assumption; lia.
Qed.

End Batch.

(** ** The error handler *)

(** X6.  Whatever the error, [_handleStepError] leaves alone the ceiling
    that trimming reads and the agent's own setting.  When it returns it
    has counted exactly one more consecutive failure and answers with one
    result, the error with the formatted message; when an exception
    leaves it, no failure has been counted. *)
Theorem handleStepError_outcome (e : JsError) (trace : bool) (a : AgentCore) :
  let a' := fst (_handleStepError e trace a) in
  maxTokens (state (messageManager a')) = maxTokens (state (messageManager a))
  /\ agentMaxInputTokens a' = agentMaxInputTokens a
  /\ match snd (_handleStepError e trace a) with
     | HandlerReturned res =>
         consecutiveFailures a' = consecutiveFailures a + 1
         /\ res = [errorResult (formatError e trace)]
     | HandlerThrew => consecutiveFailures a' = consecutiveFailures a
     end.
Proof.
  unfold _handleStepError.
  destruct (isErrorInstance e && _); [|by repeat split].
  destruct (includes "Max token limit reached" _).
  - pose proof (AgentProofs.cutMessages_maxTokens
                  (state (setMaxInputTokens (agentMaxInputTokens a - 500)
                                            (messageManager a)))) as H.
    destruct (cutMessages _) as [st []]; cbn in *; by repeat split.
  - destruct (includes "Could not parse response" _); by repeat split.
Qed.

(** ** The plan and the state message *)

(** The planner is due at step 3 with an interval of 1. *)
Lemma appendContext_plan_last_fresh :
  (fun mm' => history (state mm'))
    <$> appendContext pageMessage true 3 1 (Some "compare prices") false freshManager
  = Some (history (state freshManager)
          ++ [pageMessage; {| role := user; content := Str "Plan: compare prices" |}]).
Proof.
  apply (AgentProofs.appendContext_plan_last pageMessage 3 1 "compare prices" freshManager);
    [reflexivity | reflexivity | discriminate].
Defined.

(** X8.  In a step in which the planner ran and answered with a plan,
    the message that [_removeLastStateMessage] removes after the model
    call is not the state message.  It is the plan; or, on a last step,
    the last-step warning, and then the state message and the plan both
    stay in the history. *)
Theorem removeLast_after_plan_keeps_state
        (stateMessage : Message) (nSteps interval : Z) (p : string)
        (isLastStep : bool) (mm : Manager) :
  sensitiveData (settings mm) = None ->
  plannerTurn nSteps interval = true ->
  p <> "" ->
  (fun mm' => history (_removeLastStateMessage (state mm')))
    <$> appendContext stateMessage true nSteps interval (Some p) isLastStep mm
  = Some (history (state mm)
          ++ stateMessage
             :: (if isLastStep
                 then [{| role := user; content := Str ("Plan: " +:+ p) |}]
                 else [])).
Proof.
  intros Hs Hdue Hp. unfold appendContext, addStateMessage.
  rewrite Hs, Hdue. cbn [mbind option_bind fmap option_fmap option_map andb].
  unfold withState. f_equal.
  assert (addPlan (Some p) (-1) (_addMessageWithTokens stateMessage (state mm))
          = _addMessageWithTokens {| role := user; content := Str ("Plan: " +:+ p) |}
              (_addMessageWithTokens stateMessage (state mm))) as Hplan.
  { unfold addPlan. by destruct p. }
  destruct isLastStep; cbn [state]; rewrite Hplan, MessageFacts.remove_added_user.
  - cbn [_addMessageWithTokens history]. by rewrite <- app_assoc.
  - reflexivity.
Qed.

Lemma removeLast_after_plan_last_step :
  (fun mm' => history (_removeLastStateMessage (state mm')))
    <$> appendContext pageMessage true 3 1 (Some "compare prices") true freshManager
  = Some (history (state freshManager)
          ++ [pageMessage; {| role := user; content := Str "Plan: compare prices" |}]).
Proof.
  apply (removeLast_after_plan_keeps_state pageMessage 3 1 "compare prices" true
           freshManager);
    [reflexivity | reflexivity | discriminate].
Defined.

End AgentFacts.

Module HistoryFacts.
Import Views HistoryTreeProcessor HistoryProofs.

(** ** The order of strings *)

Lemma ascii_compare_le_trans (a b c : ascii) :
  Ascii.compare a b <> Gt -> Ascii.compare b c <> Gt -> Ascii.compare a c <> Gt.
Proof.
  unfold Ascii.compare. rewrite !N.compare_gt_iff. lia.
Qed.

Lemma ascii_compare_eq (a b : ascii) : Ascii.compare a b = Eq -> a = b.
Proof. apply Ascii.compare_eq_iff. Qed.

Lemma ascii_compare_lt_le (a b c : ascii) :
  Ascii.compare a b = Lt -> Ascii.compare b c <> Gt -> Ascii.compare a c = Lt.
Proof.
  unfold Ascii.compare. rewrite N.compare_gt_iff, !N.compare_lt_iff. lia.
Qed.

Lemma ascii_compare_le_lt (a b c : ascii) :
  Ascii.compare a b <> Gt -> Ascii.compare b c = Lt -> Ascii.compare a c = Lt.
Proof.
  unfold Ascii.compare. rewrite N.compare_gt_iff, !N.compare_lt_iff. lia.
Qed.

Lemma string_compare_le_trans (s1 : string) :
  forall s2 s3,
    String.compare s1 s2 <> Gt -> String.compare s2 s3 <> Gt ->
    String.compare s1 s3 <> Gt.
Proof.
  induction s1 as [|c1 s1 IH]; intros [|c2 s2] [|c3 s3]; cbn [String.compare];
    try congruence.
  destruct (Ascii.compare c1 c2) eqn:H12; [| |congruence].
  - apply ascii_compare_eq in H12. subst c2.
    destruct (Ascii.compare c1 c3); [apply IH|congruence|congruence].
  - intros _. destruct (Ascii.compare c2 c3) eqn:H23; [| |congruence].
    + apply ascii_compare_eq in H23. subst c3. by rewrite H12.
    + intros _. rewrite (ascii_compare_lt_le c1 c2 c3); [congruence|exact H12|].
      by rewrite H23.
Qed.

Lemma leb_le (s1 s2 : string) : String.leb s1 s2 = true <-> String.compare s1 s2 <> Gt.
Proof. unfold String.leb. destruct (String.compare s1 s2); split; congruence. Qed.

Lemma leb_trans (s1 s2 s3 : string) :
  String.leb s1 s2 = true -> String.leb s2 s3 = true -> String.leb s1 s3 = true.
Proof. rewrite !leb_le. apply string_compare_le_trans. Qed.

Lemma leb_false_flip (s1 s2 : string) : String.leb s1 s2 = false -> String.leb s2 s1 = true.
Proof. intros H. destruct (String.leb_total s1 s2); congruence. Qed.

(** ** Sorting the keys *)

Lemma insertKey_comm (a b : string) (l : list string) :
  insertKey a (insertKey b l) = insertKey b (insertKey a l).
Proof.
  induction l as [|x l IH].
  - cbn. destruct (String.leb a b) eqn:Hab, (String.leb b a) eqn:Hba; try reflexivity.
    + by rewrite (String.leb_antisym _ _ Hab Hba).
    + apply leb_false_flip in Hab. congruence.
  - cbn [insertKey].
    destruct (String.leb b x) eqn:Hbx, (String.leb a x) eqn:Hax; cbn [insertKey].
    + destruct (String.leb a b) eqn:Hab, (String.leb b a) eqn:Hba;
        rewrite ?Hax, ?Hbx; try reflexivity.
      * by rewrite (String.leb_antisym _ _ Hab Hba).
      * apply leb_false_flip in Hab. congruence.
    + assert (String.leb a b = false) as Hab.
      { destruct (String.leb a b) eqn:E; [|reflexivity].
        pose proof (leb_trans _ _ _ E Hbx). congruence. }
      by rewrite Hab, Hax, Hbx.
    + assert (String.leb b a = false) as Hba.
      { destruct (String.leb b a) eqn:E; [|reflexivity].
        pose proof (leb_trans _ _ _ E Hax). congruence. }
      by rewrite Hba, Hax, Hbx.
    + by rewrite Hax, Hbx, IH.
Qed.

Lemma sortKeys_perm (l1 l2 : list string) : l1 ≡ₚ l2 -> sortKeys l1 = sortKeys l2.
Proof.
  unfold sortKeys. induction 1 as [|x l1 l2 _ IH|x y l|l1 l2 l3 _ IH1 _ IH2]; cbn [foldr].
  - reflexivity.
  - by rewrite IH.
  - apply insertKey_comm.
  - by rewrite IH1.
Qed.

Lemma insertKey_elem (k x : string) (l : list string) :
  x ∈ insertKey k l <-> x = k \/ x ∈ l.
Proof.
  induction l as [|y l IH]; cbn [insertKey].
  - by rewrite list_elem_of_singleton, elem_of_nil; intuition.
  - destruct (String.leb k y); rewrite !elem_of_cons; [tauto|]. rewrite IH. tauto.
Qed.

Lemma sortKeys_elem (x : string) (l : list string) : x ∈ sortKeys l <-> x ∈ l.
Proof.
  unfold sortKeys. induction l as [|y l IH]; cbn [foldr]; [done|].
  by rewrite insertKey_elem, elem_of_cons, IH.
Qed.

(** ** Reading an attribute *)

Lemma attributeValue_elem (k v : string) (attrs : list (string * string)) :
  NoDup (attrs.*1) -> (k, v) ∈ attrs -> attributeValue k attrs = v.
Proof.
  induction attrs as [|[k0 v0] attrs IH]; intros Hnd Hin.
  - by apply elem_of_nil in Hin.
  - cbn [fmap list_fmap fst] in Hnd. apply NoDup_cons in Hnd as [Hnotin Hnd].
    cbn [attributeValue]. apply elem_of_cons in Hin as [Heq|Hin].
    + injection Heq as <- <-. by rewrite String.eqb_refl.
    + destruct (String.eqb k0 k) eqn:E; [|by apply IH].
      apply String.eqb_eq in E. subst k0. exfalso. apply Hnotin.
      apply list_elem_of_fmap. by exists (k, v).
Qed.

Section Hashing.

Variable _createHash : string -> string.

(** X9.  The attribute hash does not depend on the order of the
    attributes: two attribute objects with the same entries, listed in
    any order, have the same hash. *)
Theorem attributesHash_order_independent (attrs1 attrs2 : list (string * string)) :
  attrs1 ≡ₚ attrs2 ->
  NoDup (attrs1.*1) ->
  _attributesHash _createHash attrs1 = _attributesHash _createHash attrs2.
Proof.
  intros Hperm Hnd. unfold _attributesHash.
  change (map fst attrs1) with (attrs1.*1). change (map fst attrs2) with (attrs2.*1).
  assert (NoDup (attrs2.*1)) as Hnd2 by (by rewrite <- Hperm).
  rewrite <- (sortKeys_perm (attrs1.*1) (attrs2.*1)) by (by rewrite Hperm).
  do 2 f_equal. apply List.map_ext_in. intros key Hkey.
  apply list_elem_of_In, sortKeys_elem, list_elem_of_fmap in Hkey
    as ([k v] & -> & Hin).
  cbn [fst]. f_equal. f_equal.
  rewrite (attributeValue_elem k v attrs1 Hnd Hin).
  symmetry. apply attributeValue_elem; [exact Hnd2|]. by rewrite <- Hperm.
Qed.

Lemma sameHashes_sym (a b : HashedDomElement) : sameHashes a b = sameHashes b a.
Proof.
  unfold sameHashes. f_equal; [f_equal|]; apply bool_decide_ext; split; congruence.
Qed.

(** X10.  What [findHistoryElementInTree] returns is a node of the tree,
    at the returned place, that carries a highlight index and that
    [compareHistoryElementAndDomElement] accepts for the record. *)
Theorem findHistoryElementInTree_sound
        (h : DOMHistoryElement) (tree : DOMNode) (pos : Position) (n : DOMNode) :
  findHistoryElementInTree _createHash h tree = Some (pos, n) ->
  exists ancestors e cs,
    n = DOMElementNode e cs
    /\ nodeAt [] tree pos = Some (ancestors, n)
    /\ highlightIndex e <> None
    /\ compareHistoryElementAndDomElement _createHash h ancestors e = true.
Proof.
  rewrite find_first_match. intros Hfind.
  destruct (List.find _ _) as [[[a p] m]|] eqn:E; [|discriminate].
  cbn in Hfind. injection Hfind as -> ->.
  apply List.find_some in E as [Hin Hm]. apply list_elem_of_In in Hin.
  destruct (indexedNodes_nodeAt _ _ _ _ _ _ Hin) as (rel & Hrel & Hat & e & cs & -> & Hidx).
  cbn [app] in Hrel. subst rel. exists a, e, cs. repeat split; try assumption.
  unfold compareHistoryElementAndDomElement. rewrite sameHashes_sym. exact Hm.
Qed.

(** X11.  [findHistoryElementInTree] returns [null] exactly when no
    indexed node of the tree has the three hashes of the record. *)
Theorem findHistoryElementInTree_none (h : DOMHistoryElement) (tree : DOMNode) :
  findHistoryElementInTree _createHash h tree = None
  <-> forall ancestors pos e cs,
        nodeAt [] tree pos = Some (ancestors, DOMElementNode e cs) ->
        highlightIndex e <> None ->
        compareHistoryElementAndDomElement _createHash h ancestors e = false.
Proof.
  rewrite find_first_match. split.
  - intros Hnone ancestors pos e cs Hat Hidx.
    destruct (List.find _ _) eqn:E; [discriminate|].
    pose proof (nodeAt_indexedNodes tree [] [] pos ancestors e cs Hat Hidx) as Hin.
    pose proof (List.find_none _ _ E _ (proj1 (list_elem_of_In _ _) Hin)) as Hm.
    unfold compareHistoryElementAndDomElement. rewrite sameHashes_sym. exact Hm.
  - intros Hall. destruct (List.find _ _) as [[[a p] m]|] eqn:E; [|reflexivity].
    apply List.find_some in E as [Hin Hm]. apply list_elem_of_In in Hin.
    destruct (indexedNodes_nodeAt _ _ _ _ _ _ Hin) as (rel & Hrel & Hat & e & cs & -> & Hidx).
    cbn [app] in Hrel. subst rel.
    specialize (Hall a p e cs Hat Hidx).
    unfold compareHistoryElementAndDomElement in Hall. rewrite sameHashes_sym in Hall.
    cbn [matchesAt] in Hm. congruence.
Qed.

End Hashing.

(** The attributes of the form's field, listed in the other order. *)
Lemma attributesHash_field_reordered :
  _attributesHash (fun input => input) [("type", "text"); ("name", "q")]
  = _attributesHash (fun input => input) [("name", "q"); ("type", "text")].
Proof.
  apply attributesHash_order_independent.
  - apply perm_swap.
  - apply (bool_decide_unpack _). vm_compute. exact I.
Defined.

(** The record of the form's button is found in the form's page. *)
Lemma findHistoryElementInTree_sound_button :
  exists ancestors e cs,
    DOMElementNode formButton [DOMTextNode true "Go"] = DOMElementNode e cs
    /\ nodeAt [] formTree [1; 1]%nat
       = Some (ancestors, DOMElementNode formButton [DOMTextNode true "Go"])
    /\ highlightIndex e <> None
    /\ compareHistoryElementAndDomElement (fun input => input)
         (convertDomElementToHistoryElement [bareRoot; formElement] formButton)
         ancestors e = true.
Proof.
  apply (findHistoryElementInTree_sound (fun input => input)
           (convertDomElementToHistoryElement [bareRoot; formElement] formButton) formTree).
  vm_compute. reflexivity.
Defined.

End HistoryFacts.

Module DomServiceFacts.
Import Views DomService SnapshotShape DomServiceProofs.

Lemma entryOf_notin id (entries : list (string * option NodeData)) :
  id ∉ entries.*1 -> entryOf id entries = None.
Proof.
  induction entries as [|[k v] entries IH]; intros Hnotin; [reflexivity|].
  cbn [entryOf]. cbn [fmap list_fmap fst] in Hnotin.
  apply not_elem_of_cons in Hnotin as [Hne Hnotin].
  destruct (String.eqb k id) eqn:E; [|by apply IH].
  apply String.eqb_eq in E. congruence.
Qed.

(** ** The first loop *)

Lemma createNode_kind nodeMap selMap k v id :
  kind <$> (createNode (nodeMap, selMap) (k, v)).1 !! id
  = if String.eqb k id
    then match v ≫= (fun nd => (_parseNode nd).1) with
         | Some kd => Some kd
         | None => kind <$> nodeMap !! id
         end
    else kind <$> nodeMap !! id.
Proof.
  unfold createNode. destruct (String.eqb k id) eqn:E.
  - apply String.eqb_eq in E. subst k. destruct v as [nd|]; [|reflexivity].
    cbn [mbind option_bind]. destruct (_parseNode nd).1; [|reflexivity].
    cbn [fst]. by rewrite lookup_insert_eq.
  - apply String.eqb_neq in E. destruct v as [nd|]; [|reflexivity].
    destruct (_parseNode nd).1; [|reflexivity].
    cbn [fst]. by rewrite lookup_insert_ne.
Qed.

Lemma createNode_fold_kind entries :
  forall nodeMap selMap id,
    NoDup (entries.*1) ->
    kind <$> (foldl createNode (nodeMap, selMap) entries).1 !! id
    = match nodeOf entries id with
      | Some kd => Some kd
      | None => kind <$> nodeMap !! id
      end.
Proof.
  induction entries as [|[k v] entries IH]; intros nodeMap selMap id Hnd; [reflexivity|].
  cbn [fmap list_fmap fst] in Hnd. apply NoDup_cons in Hnd as [Hnotin Hnd].
  cbn [foldl].
  destruct (createNode (nodeMap, selMap) (k, v)) as [nm1 sel1] eqn:E.
  rewrite (IH nm1 sel1 id Hnd).
  pose proof (createNode_kind nodeMap selMap k v id) as Hk. rewrite E in Hk.
  cbn [fst] in Hk. rewrite Hk. unfold nodeOf. cbn [entryOf].
  destruct (String.eqb k id) eqn:Ek; [|reflexivity].
  apply String.eqb_eq in Ek. subst k.
  rewrite (entryOf_notin id entries Hnotin). cbn [mbind option_bind].
  by destruct (v ≫= _).
Qed.

(** A node leaves the first loop without parent and without children. *)
Lemma createNode_fold_unlinked entries :
  forall nodeMap selMap,
    (forall x n, nodeMap !! x = Some n -> parent n = None /\ children n = []) ->
    forall x n, (foldl createNode (nodeMap, selMap) entries).1 !! x = Some n ->
                parent n = None /\ children n = [].
Proof.
  induction entries as [|[k v] entries IH]; intros nodeMap selMap Hinv x n; [apply Hinv|].
  cbn [foldl]. destruct (createNode (nodeMap, selMap) (k, v)) as [nm1 sel1] eqn:E.
  apply IH. intros y m Hy. unfold createNode in E.
  destruct v as [nd|]; [|injection E as <- <-; by apply (Hinv y)].
  destruct (_parseNode nd).1; [|injection E as <- <-; by apply (Hinv y)].
  injection E as <- <-.
  apply lookup_insert_Some in Hy as [[_ <-]|[_ Hy]]; [by split | by apply (Hinv y)].
Qed.

(** The key of an index is not touched by entries that do not carry
    it. *)
Lemma createNode_fold_selector_other entries h :
  forall nodeMap selMap,
    (forall id nd, (id, Some nd) ∈ entries -> parsedIndex nd <> Some h) ->
    (foldl createNode (nodeMap, selMap) entries).2 !! h = selMap !! h.
Proof.
  induction entries as [|[k v] entries IH]; intros nodeMap selMap Hother; [reflexivity|].
  cbn [foldl]. destruct (createNode (nodeMap, selMap) (k, v)) as [nm1 sel1] eqn:E.
  rewrite IH by (intros id nd Hin; apply (Hother id nd); by right).
  unfold createNode in E.
  destruct v as [nd|]; [|by injection E as <- <-].
  pose proof (Hother k nd (ltac:(by left))) as Hne. unfold parsedIndex in Hne.
  destruct (_parseNode nd).1 as [kd|]; [|by injection E as <- <-].
  injection E as <- <-. unfold indexOf. cbn [kind].
  destruct kd as [vis t|e]; [reflexivity|].
  destruct (highlightIndex e) as [h'|]; [|reflexivity].
  rewrite lookup_insert_ne; [reflexivity|congruence].
Qed.

Lemma constructDomTree_payload entries r :
  r <> "" ->
  heap (_constructDomTree (payload entries r))
  = foldl wireNode (foldl createNode (∅, ∅) entries).1 entries
  /\ selectorMap (_constructDomTree (payload entries r))
     = (foldl createNode (∅, ∅) entries).2.
Proof.
  intros Hr. unfold _constructDomTree, payload. cbn [map rootId].
  rewrite bool_decide_eq_false_2 by exact Hr.
  destruct (foldl createNode (∅, ∅) entries) as [nm1 sel].
  by destruct (hasEntry r entries).
Qed.

(** X12.  The built node set is read off the payload entry by entry: a
    node is stored under an id exactly when the payload has a description
    under that id that is not [null] and is not a text node with empty or
    white-space text, and the stored node is what [_parseNode] makes of
    the description. *)
Theorem constructDomTree_nodes (entries : list (string * option NodeData))
        (r id : string) :
  NoDup (entries.*1) ->
  r <> "" ->
  kind <$> heap (_constructDomTree (payload entries r)) !! id = nodeOf entries id.
Proof.
  intros Hnd Hr. rewrite (proj1 (constructDomTree_payload entries r Hr)).
  rewrite wireNode_fold_kind, (createNode_fold_kind entries ∅ ∅ id Hnd).
  rewrite lookup_empty. by destruct (nodeOf entries id).
Qed.

(** On the specification's scenario: the three nodes, and nothing under
    another id. *)
Lemma constructDomTree_nodes_hello :
  kind <$> heap helloSnapshot !! "3" = Some (TextKind true "Hello")
  /\ kind <$> heap helloSnapshot !! "4" = None.
Proof.
  pose (entries := [("1", Some (elementData "body" "/body" ["2"; "3"] None));
                    ("2", Some (elementData "button" "/body/button" [] (Some 0)));
                    ("3", Some (textData "Hello"))]).
  assert (NoDup (entries.*1)) as Hnd
      by (apply (bool_decide_unpack _); vm_compute; exact I).
  split.
  - exact (constructDomTree_nodes entries "1" "3" Hnd ltac:(discriminate)).
  - exact (constructDomTree_nodes entries "1" "4" Hnd ltac:(discriminate)).
Defined.

(** X13.  When several descriptions carry one highlight index, the
    selector map holds under that index the node of the last of them in
    the order of the payload. *)
Theorem selectorMap_last_entry_wins
        (before after : list (string * option NodeData))
        (id r : string) (nd : NodeData) (h : Z) :
  r <> "" ->
  parsedIndex nd = Some h ->
  (forall id' nd', (id', Some nd') ∈ after -> parsedIndex nd' <> Some h) ->
  selectorMap (_constructDomTree (payload (before ++ (id, Some nd) :: after) r)) !! h
  = Some id.
Proof.
  intros Hr Hidx Hafter.
  rewrite (proj2 (constructDomTree_payload _ r Hr)).
  rewrite foldl_app. cbn [foldl].
  destruct (foldl createNode (∅, ∅) before) as [nm0 sel0].
  destruct (createNode (nm0, sel0) (id, Some nd)) as [nm1 sel1] eqn:E.
  rewrite (createNode_fold_selector_other after h nm1 sel1 Hafter).
  unfold createNode in E. unfold parsedIndex in Hidx.
  destruct (_parseNode nd).1 as [[vis t|e]|]; try discriminate.
  injection E as <- <-. unfold indexOf. cbn [kind]. rewrite Hidx.
  apply lookup_insert_eq.
Qed.

(** Two buttons claim index 0: the second one holds the key. *)
Lemma selectorMap_clash_last :
  selectorMap (_constructDomTree (Some clashPage)) !! 0 = Some "3".
Proof.
  apply (selectorMap_last_entry_wins
           [("1", Some (elementData "body" "/body" ["2"; "3"] None));
            ("2", Some (elementData "button" "/body/button[1]" [] (Some 0)))]
           [] "3" "1" (elementData "button" "/body/button[2]" [] (Some 0)) 0).
  - discriminate.
  - reflexivity.
  - intros id' nd' Hin. by apply elem_of_nil in Hin.
Defined.

(** ** The second loop *)

Lemma linkChild_valid p0 nodeMap c0 x :
  validChild nodeMap c0 ->
  linkChild p0 nodeMap c0 !! x = linked p0 c0 x <$> nodeMap !! x.
Proof.
  intros [Hne Hres]. unfold linkChild.
  rewrite bool_decide_eq_false_2 by exact Hne. rewrite Hres.
  rewrite !lookup_alter. unfold linked.
  destruct (decide (p0 = x)) as [->|Hp], (decide (c0 = x)) as [->|Hc];
    rewrite ?lookup_alter; repeat case_decide; try congruence;
    destruct (nodeMap !! x) as [[kd pa ch]|]; reflexivity.
Qed.

Lemma linkChild_invalid p0 nodeMap c0 :
  ¬ validChild nodeMap c0 -> linkChild p0 nodeMap c0 = nodeMap.
Proof.
  intros Hinv. unfold linkChild. case_bool_decide; [reflexivity|].
  destruct (resolves nodeMap c0) eqn:E; [|reflexivity].
  exfalso. apply Hinv. by split.
Qed.

(** Linking changes no id into or out of the node set. *)
Lemma linkChild_dom p0 nodeMap c0 x :
  is_Some (linkChild p0 nodeMap c0 !! x) <-> is_Some (nodeMap !! x).
Proof.
  destruct (decide (validChild nodeMap c0)) as [Hv|Hv].
  - rewrite (linkChild_valid _ _ _ _ Hv). apply fmap_is_Some.
  - by rewrite (linkChild_invalid _ _ _ Hv).
Qed.

Lemma linkChild_fold_dom p0 cs :
  forall nodeMap x,
    is_Some (foldl (linkChild p0) nodeMap cs !! x) <-> is_Some (nodeMap !! x).
Proof.
  induction cs as [|c cs IH]; intros nodeMap x; [reflexivity|].
  cbn [foldl]. by rewrite IH, linkChild_dom.
Qed.

Lemma wireNode_dom nodeMap entry x :
  is_Some (wireNode nodeMap entry !! x) <-> is_Some (nodeMap !! x).
Proof.
  unfold wireNode. destruct entry as [k [nd|]]; [|reflexivity].
  destruct (nd_children nd); [|reflexivity].
  destruct (resolves nodeMap k); [|reflexivity]. apply linkChild_fold_dom.
Qed.

Lemma wireNode_fold_dom entries :
  forall nodeMap x,
    is_Some (foldl wireNode nodeMap entries !! x) <-> is_Some (nodeMap !! x).
Proof.
  induction entries as [|e entries IH]; intros nodeMap x; [reflexivity|].
  cbn [foldl]. by rewrite IH, wireNode_dom.
Qed.

Lemma validChild_iff (nm1 nm2 : gmap string HeapNode) :
  (forall x, is_Some (nm1 !! x) <-> is_Some (nm2 !! x)) ->
  forall c, validChild nm1 c <-> validChild nm2 c.
Proof.
  intros H c. unfold validChild, resolves.
  by rewrite (bool_decide_ext _ _ (H c)).
Qed.

(** The children of a node after the inner loop. *)
Lemma linkChild_fold_children p0 cs :
  forall nodeMap x n',
    foldl (linkChild p0) nodeMap cs !! x = Some n' ->
    exists n, nodeMap !! x = Some n
              /\ children n' = if decide (x = p0)
                               then children n ++ filter (validChild nodeMap) cs
                               else children n.
Proof.
  induction cs as [|c cs IH]; intros nodeMap x n' H.
  - exists n'. split; [exact H|]. case_decide; [by rewrite app_nil_r|reflexivity].
  - cbn [foldl] in H. destruct (IH _ _ _ H) as (n1 & Hn1 & Hch).
    rewrite (list_filter_iff _ (validChild nodeMap)) in Hch
      by (apply validChild_iff; intros y; apply linkChild_dom).
    destruct (decide (validChild nodeMap c)) as [Hv|Hv].
    + rewrite (linkChild_valid _ _ _ _ Hv) in Hn1.
      destruct (nodeMap !! x) as [n|] eqn:Hn; [|discriminate].
      cbn in Hn1. injection Hn1 as <-. exists n. split; [reflexivity|].
      rewrite (filter_cons_True _ _ _ Hv). rewrite Hch. unfold linked. cbn [children].
      case_decide; [by rewrite <- app_assoc|reflexivity].
    + rewrite (linkChild_invalid _ _ _ Hv) in Hn1. exists n1. split; [exact Hn1|].
      by rewrite (filter_cons_False _ _ _ Hv).
Qed.

Lemma childIdsOf_cons k v entries x :
  childIdsOf ((k, v) :: entries) x
  = if String.eqb k x then default [] (v ≫= nd_children) else childIdsOf entries x.
Proof. unfold childIdsOf. cbn [entryOf]. by destruct (String.eqb k x). Qed.

Lemma wireNode_children nodeMap k v x n' :
  wireNode nodeMap (k, v) !! x = Some n' ->
  exists n, nodeMap !! x = Some n
            /\ children n' = if String.eqb k x
                             then children n
                                  ++ filter (validChild nodeMap) (default [] (v ≫= nd_children))
                             else children n.
Proof.
  unfold wireNode. intros H.
  assert (forall n, children n = if String.eqb k x then children n ++ [] else children n)
    as Hsame by (intros n; destruct (String.eqb k x); by rewrite ?app_nil_r).
  destruct v as [nd|]; [|by exists n'].
  cbn [mbind option_bind]. destruct (nd_children nd) as [cs|]; [|by exists n'].
  cbn [default]. destruct (resolves nodeMap k) eqn:Hk.
  - destruct (linkChild_fold_children _ _ _ _ _ H) as (n & Hn & Hch).
    exists n. split; [exact Hn|]. rewrite Hch.
    destruct (String.eqb k x) eqn:E.
    + apply String.eqb_eq in E. subst. by rewrite decide_True.
    + apply String.eqb_neq in E. by rewrite decide_False by congruence.
  - exists n'. split; [exact H|].
    destruct (String.eqb k x) eqn:E; [|reflexivity].
    apply String.eqb_eq in E. subst. unfold resolves in Hk.
    rewrite H in Hk. rewrite bool_decide_eq_true_2 in Hk by (by eexists).
    discriminate.
Qed.

Lemma wireNode_fold_children entries :
  forall nodeMap x n',
    NoDup (entries.*1) ->
    foldl wireNode nodeMap entries !! x = Some n' ->
    exists n, nodeMap !! x = Some n
              /\ children n' = children n
                               ++ filter (validChild nodeMap) (childIdsOf entries x).
Proof.
  induction entries as [|[k v] entries IH]; intros nodeMap x n' Hnd H.
  - exists n'. split; [exact H|]. by rewrite app_nil_r.
  - cbn [fmap list_fmap fst] in Hnd. apply NoDup_cons in Hnd as [Hnotin Hnd].
    cbn [foldl] in H. destruct (IH _ _ _ Hnd H) as (n1 & Hn1 & Hch).
    rewrite (list_filter_iff _ (validChild nodeMap)) in Hch
      by (apply validChild_iff; intros y; apply wireNode_dom).
    destruct (wireNode_children _ _ _ _ _ Hn1) as (n & Hn & Hch1).
    exists n. split; [exact Hn|]. rewrite Hch, Hch1, childIdsOf_cons.
    destruct (String.eqb k x) eqn:E; [|reflexivity].
    apply String.eqb_eq in E. subst k.
    unfold childIdsOf at 1. rewrite (entryOf_notin x entries Hnotin).
    cbn [mbind option_bind default]. by rewrite filter_nil, app_nil_r.
Qed.

(** ** Payloads with ordinary ids *)

Lemma ordinaryIds_entry entries k v :
  ordinaryIds entries -> (k, v) ∈ entries ->
  inherited k = false
  /\ Forall (fun c => inherited c = false) (default [] (v ≫= nd_children)).
Proof.
  unfold ordinaryIds. induction entries as [|[k0 v0] entries IH]; intros Hall Hin.
  - by apply elem_of_nil in Hin.
  - cbn [idsOf] in Hall. apply Forall_cons in Hall as [Hk Hall].
    apply Forall_app in Hall as [Hcs Hall].
    apply elem_of_cons in Hin as [[= -> ->]|Hin]; [by split | by apply IH].
Qed.

Lemma childIdsOf_ordinary entries id :
  ordinaryIds entries ->
  Forall (fun c => inherited c = false) (childIdsOf entries id).
Proof.
  unfold ordinaryIds. induction entries as [|[k v] entries IH]; intros Hall.
  - apply List.Forall_nil.
  - cbn [idsOf] in Hall. apply Forall_cons in Hall as [Hk Hall].
    apply Forall_app in Hall as [Hcs Hall]. rewrite childIdsOf_cons.
    destruct (String.eqb k id); [exact Hcs | by apply IH].
Qed.

Lemma resolves_ordinary (nodeMap : gmap string HeapNode) (c : string) :
  inherited c = false -> resolves nodeMap c = true -> is_Some (nodeMap !! c).
Proof.
  unfold resolves. intros -> H. rewrite orb_false_r in H.
  by apply bool_decide_eq_true in H.
Qed.

(** X14.  In a snapshot built from a payload none of whose ids names a
    member of [Object.prototype], the children of a built node are the
    child ids that the payload lists for it, in the payload's order,
    without the ids that are empty or name no built node: a child
    reference never dangles. *)
Theorem constructDomTree_children (entries : list (string * option NodeData))
        (r id : string) (n : HeapNode) :
  NoDup (entries.*1) ->
  ordinaryIds entries ->
  r <> "" ->
  heap (_constructDomTree (payload entries r)) !! id = Some n ->
  children n
  = filter (fun c => c <> ""
                     /\ is_Some (heap (_constructDomTree (payload entries r)) !! c))
           (childIdsOf entries id)
  /\ forall c, c ∈ children n ->
               is_Some (heap (_constructDomTree (payload entries r)) !! c).
Proof.
  intros Hnd Hord Hr Hn.
  assert (children n
          = filter (validChild (heap (_constructDomTree (payload entries r))))
                   (childIdsOf entries id)) as Hch.
  { rewrite (proj1 (constructDomTree_payload entries r Hr)) in Hn |- *.
    destruct (wireNode_fold_children _ _ _ _ Hnd Hn) as (n0 & Hn0 & Hch).
    destruct (createNode_fold_unlinked entries ∅ ∅
                (fun x m Hx => ltac:(by rewrite lookup_empty in Hx)) _ _ Hn0) as [_ Hc0].
    rewrite Hch, Hc0. cbn [app]. apply list_filter_iff.
    apply validChild_iff. intros y. symmetry. apply wireNode_fold_dom. }
  pose proof (childIdsOf_ordinary entries id Hord) as Hids.
  rewrite Forall_forall in Hids.
  assert (forall c, c ∈ childIdsOf entries id ->
            validChild (heap (_constructDomTree (payload entries r))) c
            <-> c <> "" /\ is_Some (heap (_constructDomTree (payload entries r)) !! c))
    as Hvalid.
  { intros c Hc. unfold validChild. split; intros [Hne H]; (split; [exact Hne|]).
    - by apply resolves_ordinary; [apply Hids|].
    - unfold resolves. by rewrite bool_decide_eq_true_2. }
  split.
  - rewrite Hch. clear Hch Hn. induction (childIdsOf entries id) as [|c cs IH];
      [reflexivity|].
    rewrite !filter_cons.
    assert (forall c', c' ∈ cs ->
              validChild (heap (_constructDomTree (payload entries r))) c'
              <-> c' <> "" /\ is_Some (heap (_constructDomTree (payload entries r)) !! c'))
      as Hrest by (intros c' Hc'; apply Hvalid; by right).
    assert (forall c', c' ∈ cs -> inherited c' = false) as Hids'
        by (intros c' Hc'; apply Hids; by right).
    specialize (Hvalid c (ltac:(by left))).
    destruct (decide (validChild _ c)) as [Hv|Hv],
             (decide (c <> "" /\ is_Some (heap (_constructDomTree (payload entries r)) !! c)))
      as [Hv'|Hv']; try tauto; by rewrite (IH Hids' Hrest).
  - intros c Hc. rewrite Hch in Hc. apply list_elem_of_filter in Hc as [Hv Hc].
    by apply (Hvalid c Hc) in Hv as [_ Hv].
Qed.

(** On the specification's scenario: the body has its two children. *)
Lemma constructDomTree_children_hello :
  exists n, heap helloSnapshot !! "1" = Some n /\ children n = ["2"; "3"].
Proof.
  destruct (heap helloSnapshot !! "1") as [n|] eqn:Hn;
    [|vm_compute in Hn; discriminate].
  exists n. split; [reflexivity|].
  pose (entries := [("1", Some (elementData "body" "/body" ["2"; "3"] None));
                    ("2", Some (elementData "button" "/body/button" [] (Some 0)));
                    ("3", Some (textData "Hello"))]).
  assert (NoDup (entries.*1)) as Hnd
      by (apply (bool_decide_unpack _); vm_compute; exact I).
  assert (ordinaryIds entries) as Hord
      by (apply (bool_decide_unpack _); vm_compute; exact I).
  rewrite (proj1 (constructDomTree_children entries "1" "1" n Hnd Hord
                    ltac:(discriminate) Hn)).
  vm_compute. reflexivity.
Defined.

(** A child id that names a member of [Object.prototype] is linked like
    the id of a node: the body lists under [toString] an object that is
    no built node. *)
Example constructDomTree_inherited_child :
  let s := _constructDomTree (Some inheritedChildPage) in
  children <$> heap s !! "1" = Some ["toString"; "2"]
  /\ heap s !! "toString" = None
  /\ ¬ ordinaryIds [("1", Some (elementData "body" "/body" ["toString"; "2"] None));
                    ("2", Some (textData "Hello"))].
Proof.
  split; [vm_compute; reflexivity|]. split; [vm_compute; reflexivity|].
  intros H. apply (bool_decide_eq_true_2 _) in H. vm_compute in H. discriminate.
Qed.

(** What the second loop maintains between parents and children. *)
Lemma linkChild_links p0 nodeMap c0 :
  is_Some (nodeMap !! p0) ->
  inherited c0 = false ->
  familyLinks nodeMap -> familyLinks (linkChild p0 nodeMap c0).
Proof.
  intros [np0 Hp0] Hord [Hup Hdown].
  destruct (decide (validChild nodeMap c0)) as [Hv|Hv];
    [|by rewrite (linkChild_invalid _ _ _ Hv)].
  pose proof (resolves_ordinary _ _ Hord (proj2 Hv)) as [nc0 Hc0].
  split.
  - intros c n p Hn Hpar. rewrite (linkChild_valid _ _ _ c Hv) in Hn.
    rewrite (linkChild_valid _ _ _ p Hv).
    destruct (nodeMap !! c) as [m|] eqn:Hm; [|discriminate].
    cbn in Hn. injection Hn as <-. unfold linked in Hpar. cbn [parent] in Hpar.
    destruct (decide (c = c0)) as [->|Hne].
    + injection Hpar as <-. rewrite Hp0. eexists. split; [reflexivity|].
      unfold linked. cbn [children]. rewrite decide_True by reflexivity.
      apply elem_of_app. right. by left.
    + destruct (Hup _ _ _ Hm Hpar) as (np & Hnp & Hin).
      rewrite Hnp. eexists. split; [reflexivity|].
      unfold linked. cbn [children]. case_decide; [|exact Hin].
      apply elem_of_app. by left.
  - intros p np c Hnp Hin. rewrite (linkChild_valid _ _ _ p Hv) in Hnp.
    rewrite (linkChild_valid _ _ _ c Hv).
    destruct (nodeMap !! p) as [m|] eqn:Hm; [|discriminate].
    cbn in Hnp. injection Hnp as <-. unfold linked in Hin. cbn [children] in Hin.
    assert (c = c0 \/ c ∈ children m) as [->|Hold].
    { case_decide; [|by right]. apply elem_of_app in Hin as [?|Hin]; [by right|].
      left. by apply list_elem_of_singleton in Hin. }
    + rewrite Hc0. eexists. split; [reflexivity|].
      unfold linked. cbn [parent]. by rewrite decide_True.
    + destruct (Hdown _ _ _ Hm Hold) as (n & Hn & Hsome).
      rewrite Hn. eexists. split; [reflexivity|].
      unfold linked. cbn [parent]. destruct (decide (c = c0)); [by eexists | exact Hsome].
Qed.

Lemma linkChild_fold_links p0 cs :
  forall nodeMap,
    is_Some (nodeMap !! p0) ->
    Forall (fun c => inherited c = false) cs ->
    familyLinks nodeMap -> familyLinks (foldl (linkChild p0) nodeMap cs).
Proof.
  induction cs as [|c cs IH]; intros nodeMap Hp Hord H; [exact H|].
  apply Forall_cons in Hord as [Hc Hord].
  cbn [foldl]. apply IH; [by apply linkChild_dom | exact Hord | by apply linkChild_links].
Qed.

Lemma wireNode_fold_links entries :
  forall nodeMap,
    (forall k v, (k, v) ∈ entries ->
       inherited k = false
       /\ Forall (fun c => inherited c = false) (default [] (v ≫= nd_children))) ->
    familyLinks nodeMap -> familyLinks (foldl wireNode nodeMap entries).
Proof.
  induction entries as [|[k v] entries IH]; intros nodeMap Hord H; [exact H|].
  cbn [foldl]. apply IH; [intros k' v' Hin; apply Hord; by right|].
  destruct (Hord k v (ltac:(by left))) as [Hk Hcs]. unfold wireNode.
  destruct v as [nd|]; [|exact H]. cbn [mbind option_bind] in Hcs.
  destruct (nd_children nd) as [cs|]; [|exact H]. cbn [default] in Hcs.
  destruct (resolves nodeMap k) eqn:Hres; [|exact H].
  apply linkChild_fold_links; [by apply resolves_ordinary | exact Hcs | exact H].
Qed.

(** X15.  In a snapshot built from a payload none of whose ids names a
    member of [Object.prototype], the links agree in both directions:
    the parent of a node is a built node that lists it among its
    children, and a node listed among the children of a node is a built
    node that has a parent. *)
Theorem constructDomTree_family (entries : list (string * option NodeData))
        (r : string) :
  ordinaryIds entries ->
  familyLinks (heap (_constructDomTree (payload entries r))).
Proof.
  intros Hord.
  assert (familyLinks ∅) as Hempty
      by (split; intros *; by rewrite lookup_empty).
  unfold _constructDomTree, payload. cbn [map rootId].
  case_bool_decide; [exact Hempty|].
  pose proof (createNode_fold_unlinked entries ∅ ∅
                (fun x m Hx => ltac:(by rewrite lookup_empty in Hx))) as Hun.
  destruct (foldl createNode (∅, ∅) entries) as [nm1 sel]. cbn [fst] in Hun.
  assert (familyLinks (foldl wireNode nm1 entries)) as Hfinal.
  { apply wireNode_fold_links; [intros k v; by apply ordinaryIds_entry|]. split.
    - intros c n p Hn Hp. destruct (Hun _ _ Hn) as [Hnone _]. congruence.
    - intros p np c Hnp Hin. destruct (Hun _ _ Hnp) as [_ Hnil].
      rewrite Hnil in Hin. by apply elem_of_nil in Hin. }
  by destruct (hasEntry r entries).
Qed.

(** On the specification's scenario. *)
Lemma constructDomTree_family_hello : familyLinks (heap helloSnapshot).
Proof.
  apply (constructDomTree_family
           [("1", Some (elementData "body" "/body" ["2"; "3"] None));
            ("2", Some (elementData "button" "/body/button" [] (Some 0)));
            ("3", Some (textData "Hello"))] "1").
  apply (bool_decide_unpack _). vm_compute. exact I.
Defined.

End DomServiceFacts.

Module RedactionFacts.
Import JsRegExp MessageManager RedactionShape RegExpProofs.

Lemma matchHere_plain (c : ascii) (v s : string) :
  matchHere (literalPattern (String c v)) s
  = if String.prefix (String c v) s then Some (S (String.length v)) else None.
Proof. apply (matchHere_literal (String c v) s). Qed.

Lemma prefix_append (v b : string) : String.prefix v (v +:+ b) = true.
Proof.
  induction v as [|c v IH]; [by destruct b|].
  change (String c v +:+ b) with (String c (v +:+ b)). cbn [String.prefix].
  destruct (Ascii.ascii_dec c c); [exact IH|congruence].
Qed.

(** The characters of a match are skipped. *)
Lemma replaceFrom_skip p replacement (u b : string) :
  replaceFrom p replacement (String.length u) (u +:+ b)
  = replaceFrom p replacement O b.
Proof.
  induction u as [|c u IH]; [reflexivity|].
  change (String c u +:+ b) with (String c (u +:+ b)).
  cbn [String.length replaceFrom]. exact IH.
Qed.

(** A value that does not occur leaves the text as it is. *)
Lemma replaceAll_absent (c : ascii) (v replacement s : string) :
  Agent.includes (String c v) s = false ->
  replaceAll (literalPattern (String c v)) replacement s = s.
Proof.
  unfold replaceAll. induction s as [|d s IH]; intros Habs.
  - cbn [replaceFrom]. rewrite matchHere_plain. reflexivity.
  - cbn [Agent.includes] in Habs. apply orb_false_iff in Habs as [Hpre Hrest].
    cbn [replaceFrom]. rewrite matchHere_plain, Hpre. by rewrite (IH Hrest).
Qed.

(** The leftmost occurrence is replaced and the scan goes on behind
    it. *)
Lemma replaceAll_first (c : ascii) (v replacement a b : string) :
  firstIndex (String c v) (a +:+ String c v +:+ b) = Some (String.length a) ->
  replaceAll (literalPattern (String c v)) replacement (a +:+ String c v +:+ b)
  = a +:+ replacement +:+ replaceAll (literalPattern (String c v)) replacement b.
Proof.
  unfold replaceAll. induction a as [|d a IH]; intros Hfirst.
  - change (EmptyString +:+ String c v +:+ b) with (String c (v +:+ b)).
    cbn [replaceFrom]. rewrite matchHere_plain.
    change (String c (v +:+ b)) with (String c v +:+ b) at 1.
    rewrite prefix_append. by rewrite replaceFrom_skip.
  - change (String d a +:+ String c v +:+ b) with (String d (a +:+ String c v +:+ b))
      in Hfirst |- *.
    cbn [firstIndex String.length] in Hfirst.
    destruct (String.prefix (String c v) (String d (a +:+ String c v +:+ b))) eqn:Hpre;
      [discriminate|].
    destruct (firstIndex (String c v) (a +:+ String c v +:+ b)) as [k|] eqn:Hk;
      [|discriminate].
    cbn in Hfirst. injection Hfirst as ->.
    cbn [replaceFrom]. rewrite matchHere_plain, Hpre. by rewrite (IH eq_refl).
Qed.

(** X16.  Entries whose value is empty, or is made of ordinary
    characters and does not occur in the text, leave the text as it is:
    redaction changes nothing where there is nothing to redact. *)
Theorem redactString_absent (entries : list (string * string)) (text : string) :
  Forall (passesOver text) entries ->
  redactString entries text = Some text.
Proof.
  induction 1 as [|[key v] entries Hpass _ IH]; [reflexivity|].
  cbn [redactString]. destruct Hpass as [Hempty|(Hplain & Hkey & Habs)]; cbn in *.
  - subst v. by rewrite bool_decide_eq_true_2.
  - destruct v as [|c v]; [by rewrite bool_decide_eq_true_2|].
    rewrite bool_decide_eq_false_2 by discriminate.
    rewrite Hkey, (parsePattern_plain _ Hplain).
    by rewrite (replaceAll_absent c v _ text Habs).
Qed.

Lemma redactString_absent_page :
  redactString [("password", "hunter2"); ("otp", "")] "URL: https://shop.example"
  = Some "URL: https://shop.example".
Proof.
  apply redactString_absent.
  apply List.Forall_cons; [right; repeat split; vm_compute; reflexivity|].
  apply List.Forall_cons; [left; reflexivity|].
  apply List.Forall_nil.
Defined.

(** X17.  For a value made of ordinary characters, redaction replaces
    the leftmost occurrence of the value with [[REDACTED:key]] and goes
    on with the text behind that occurrence. *)
Theorem redactString_first_occurrence (key v a b : string) :
  v <> "" ->
  plainString v = true ->
  containsChar "$" key = false ->
  firstIndex v (a +:+ v +:+ b) = Some (String.length a) ->
  redactString [(key, v)] (a +:+ v +:+ b)
  = (fun rest => a +:+ ("[REDACTED:" +:+ key +:+ "]") +:+ rest)
      <$> redactString [(key, v)] b.
Proof.
  intros Hne Hplain Hkey Hfirst. destruct v as [|c v]; [done|].
  cbn [redactString]. rewrite bool_decide_eq_false_2 by discriminate.
  rewrite Hkey, (parsePattern_plain _ Hplain). cbn [fmap option_fmap option_map].
  by rewrite (replaceAll_first c v _ a b Hfirst).
Qed.

Lemma redactString_first_occurrence_login :
  redactString [("password", "hunter2")] ("pass " +:+ "hunter2" +:+ ", again hunter2!")
  = Some ("pass " +:+ "[REDACTED:password]" +:+ ", again [REDACTED:password]!").
Proof.
  rewrite (redactString_first_occurrence "password" "hunter2" "pass " ", again hunter2!");
    [vm_compute; reflexivity | discriminate | reflexivity | reflexivity
     | vm_compute; reflexivity].
Defined.

End RedactionFacts.

Module QueryFacts.
Import Views ElementQueries QueryShape HistoryProofs.

Lemma elementsOf_element e cs :
  elementsOf (DOMElementNode e cs) = DOMElementNode e cs :: elementsAmong cs.
Proof.
  cbn [elementsOf]. f_equal; try reflexivity.
Qed.

(** The search below an element is the search for the first file field
    among its element nodes in document order. *)
Lemma fileUploadWithin_find node :
  fileUploadWithin node = List.find isFileInputNode (elementsOf node).
Proof.
  induction node as [visible text | e cs IH] using DOMNode_forall_ind; [reflexivity|].
  rewrite elementsOf_element. cbn [fileUploadWithin List.find isFileInputNode].
  destruct (isFileInput e); [reflexivity|].
  induction cs as [|c cs IHcs]; [reflexivity|].
  apply Forall_cons in IH as [IHc IHrest].
  cbn [elementsAmong]. rewrite find_app.
  destruct c as [visible text | e' cs'].
  - cbn [elementsOf List.find]. by apply IHcs.
  - rewrite <- IHc.
    destruct (fileUploadWithin (DOMElementNode e' cs')); [reflexivity | by apply IHcs].
Qed.

(** X18.  Without the look at the siblings, [getFileUploadElement]
    answers with the first file field among the element and its
    descendants in document order, and with [null] when there is
    none. *)
Theorem getFileUploadElement_first_below
        (parent : option (list DOMNode)) (own : nat) (node : DOMNode) :
  getFileUploadElement false parent own node
  = List.find isFileInputNode (elementsOf node).
Proof.
  unfold getFileUploadElement. rewrite fileUploadWithin_find.
  by destruct (List.find isFileInputNode (elementsOf node)).
Qed.

Lemma find_none_iff {A} (f : A -> bool) (l : list A) :
  List.find f l = None <-> Forall (fun x => f x = false) l.
Proof.
  induction l as [|x l IH]; cbn [List.find].
  - split; [intros _; apply List.Forall_nil | reflexivity].
  - destruct (f x) eqn:Hx.
    + split; [discriminate|]. intros H. apply Forall_cons in H as [H _]. congruence.
    + rewrite IH. split; [intros H; by apply List.Forall_cons | ].
      intros H. by apply Forall_cons in H as [_ H].
Qed.

Lemma find_some_elem {A} (f : A -> bool) (l : list A) (x : A) :
  List.find f l = Some x -> f x = true /\ x ∈ l.
Proof.
  intros H. apply List.find_some in H as [Hin Hx]. split; [exact Hx|].
  by apply list_elem_of_In.
Qed.

Lemma among_none own siblings :
  forall k,
    fileUploadAmong own siblings k = None
    <-> forall j s, siblings !! j = Some s -> (k + j)%nat <> own ->
                    fileUploadWithin s = None.
Proof.
  induction siblings as [|s siblings IH]; intros k; cbn [fileUploadAmong].
  - split; [|reflexivity]. intros _ j s Hj. by rewrite lookup_nil in Hj.
  - assert ((forall j s0, (s :: siblings) !! j = Some s0 -> (k + j)%nat <> own ->
                          fileUploadWithin s0 = None)
            <-> ((k <> own -> fileUploadWithin s = None)
                 /\ forall j s0, siblings !! j = Some s0 -> (S k + j)%nat <> own ->
                                 fileUploadWithin s0 = None)) as ->.
    { split.
      - intros H. split.
        + intros Hk. apply (H O s); [reflexivity | lia].
        + intros j s0 Hj Hne. apply (H (S j) s0); [exact Hj | lia].
      - intros [H0 H] [|j] s0 Hj Hne.
        + cbn in Hj. injection Hj as <-. apply H0. lia.
        + apply (H j s0); [exact Hj | lia]. }
    rewrite <- IH. destruct s as [visible text | e cs].
    + split; [by intros ->|]. by intros [_ H].
    + destruct (Nat.eqb_spec k own) as [->|Hk].
      * split; [by intros ->|]. by intros [_ H].
      * destruct (fileUploadWithin (DOMElementNode e cs)) eqn:Hw.
        -- split; [discriminate|]. intros [H _]. by specialize (H Hk).
        -- split; [by intros ->|]. by intros [_ H].
Qed.

Lemma elementsAmong_elem (n : DOMNode) (cs : list DOMNode) :
  n ∈ elementsAmong cs <-> exists j s, cs !! j = Some s /\ n ∈ elementsOf s.
Proof.
  induction cs as [|c cs IH]; cbn [elementsAmong].
  - split; [by intros H%elem_of_nil|]. intros (j & s & Hj & _).
    by rewrite lookup_nil in Hj.
  - rewrite elem_of_app, IH. split.
    + intros [H|(j & s & Hj & H)]; [by exists O, c | by exists (S j), s].
    + intros ([|j] & s & Hj & H).
      * cbn in Hj. injection Hj as <-. by left.
      * right. by exists j, s.
Qed.

Lemma among_some own siblings :
  forall k r,
    fileUploadAmong own siblings k = Some r ->
    isFileInputNode r = true /\ r ∈ elementsAmong siblings.
Proof.
  induction siblings as [|s siblings IH]; intros k r; cbn [fileUploadAmong elementsAmong];
    [discriminate|].
  assert (fileUploadAmong own siblings (S k) = Some r ->
          isFileInputNode r = true /\ r ∈ elementsOf s ++ elementsAmong siblings) as Hrest.
  { intros H. destruct (IH _ _ H) as [Hr Hin]. split; [exact Hr|].
    apply elem_of_app. by right. }
  destruct s as [visible text | e cs]; [exact Hrest|].
  destruct (Nat.eqb k own); [exact Hrest|].
  destruct (fileUploadWithin (DOMElementNode e cs)) as [r'|] eqn:Hw; [|exact Hrest].
  intros [= ->]. rewrite fileUploadWithin_find in Hw.
  destruct (find_some_elem _ _ _ Hw) as [Hr Hin]. split; [exact Hr|].
  apply elem_of_app. by left.
Qed.

(** X19.  Called on a child of a parent with the look at the siblings,
    [getFileUploadElement] answers [null] exactly when no child of that
    parent has a file field in its subtree; and what it answers with is
    a file field of one of these subtrees. *)
Theorem getFileUploadElement_among_siblings
        (siblings : list DOMNode) (own : nat) (node : DOMNode) :
  siblings !! own = Some node ->
  (getFileUploadElement true (Some siblings) own node = None
   <-> Forall (fun n => isFileInputNode n = false) (elementsAmong siblings))
  /\ forall r,
       getFileUploadElement true (Some siblings) own node = Some r ->
       isFileInputNode r = true /\ r ∈ elementsAmong siblings.
Proof.
  intros Hown. unfold getFileUploadElement. split.
  - rewrite Forall_forall. split.
    + intros Hnone n Hn. apply elementsAmong_elem in Hn as (j & s & Hj & Hn).
      assert (fileUploadWithin s = None) as Hs.
      { destruct (decide (j = own)) as [->|Hne].
        - rewrite Hown in Hj. injection Hj as <-.
          by destruct (fileUploadWithin node).
        - destruct (fileUploadWithin node); [discriminate|].
          by apply (proj1 (among_none own siblings O) Hnone j s Hj). }
      rewrite fileUploadWithin_find in Hs.
      apply find_none_iff in Hs. rewrite Forall_forall in Hs. by apply Hs.
    + intros Hall.
      assert (forall j s, siblings !! j = Some s -> fileUploadWithin s = None) as Hs.
      { intros j s Hj. rewrite fileUploadWithin_find. apply find_none_iff.
        apply Forall_forall. intros n Hn. apply Hall. apply elementsAmong_elem.
        by exists j, s. }
      rewrite (Hs own node Hown). apply among_none. intros j s Hj _. by apply (Hs j s).
  - intros r Hr. destruct (fileUploadWithin node) as [r'|] eqn:Hw.
    + injection Hr as ->. rewrite fileUploadWithin_find in Hw.
      destruct (find_some_elem _ _ _ Hw) as [Hfile Hin]. split; [exact Hfile|].
      apply elementsAmong_elem. by exists own, node.
    + by apply (among_some own siblings O).
Qed.

(** Asked of the text field of the form, the search finds the file field
    in the wrapper next to it. *)
Lemma getFileUploadElement_next_to_field :
  getFileUploadElement true (Some uploadChildren) 1
    (DOMElementNode HistoryTreeProcessor.formField [])
  = Some (DOMElementNode fileField [])
  /\ isFileInputNode (DOMElementNode fileField []) = true
  /\ DOMElementNode fileField [] ∈ elementsAmong uploadChildren.
Proof.
  split; [reflexivity|].
  apply (proj2 (getFileUploadElement_among_siblings uploadChildren 1
                  (DOMElementNode HistoryTreeProcessor.formField []) eq_refl)).
  reflexivity.
Defined.

Section Text.

Variable trim : string -> string.

Lemma collectText_element maxDepth isThis currentDepth e cs :
  collectText trim maxDepth isThis currentDepth (DOMElementNode e cs)
  = if negb (maxDepth =? -1) && (maxDepth <? currentDepth) then []
    else if negb isThis && bool_decide (highlightIndex e <> None) then []
         else concat (map (collectText trim maxDepth false (currentDepth + 1)) cs).
Proof.
  cbn [collectText]. destruct (_ && _); [reflexivity|].
  destruct (_ && _); [reflexivity|].
  induction cs as [|c cs IH]; [reflexivity|].
  cbn [map concat]. by rewrite <- IH.
Qed.

(** Below the element asked, what stands under an indexed element is
    not read. *)
Lemma collectText_cut node :
  forall maxDepth currentDepth,
    collectText trim maxDepth false currentDepth (cutAtIndexed node)
    = collectText trim maxDepth false currentDepth node.
Proof.
  induction node as [visible text | e cs IH] using DOMNode_forall_ind;
    intros maxDepth currentDepth; [reflexivity|].
  cbn [cutAtIndexed]. case_bool_decide as Hidx.
  - rewrite !collectText_element. destruct (_ && _); [reflexivity|].
    cbn [negb andb]. by rewrite bool_decide_eq_true_2.
  - rewrite !collectText_element. destruct (_ && _); [reflexivity|].
    destruct (_ && _); [reflexivity|]. f_equal.
    induction cs as [|c cs IHcs]; [reflexivity|].
    apply Forall_cons in IH as [IHc IHrest].
    cbn [map]. rewrite IHc. f_equal. by apply IHcs.
Qed.

(** X20.  The text of an element does not depend on what stands below
    the indexed elements under it, nor on the element's own fields: two
    elements whose children agree once everything below their indexed
    elements is taken away have the same text. *)
Theorem getAllText_stops_at_indexed
        (maxDepth : Z) (e e' : ElementData) (cs cs' : list DOMNode) :
  map cutAtIndexed cs = map cutAtIndexed cs' ->
  getAllTextTillNextClickableElement trim maxDepth e cs
  = getAllTextTillNextClickableElement trim maxDepth e' cs'.
Proof.
  intros Hcut. unfold getAllTextTillNextClickableElement.
  rewrite !collectText_element. destruct (_ && _); [reflexivity|].
  cbn [negb andb]. do 2 f_equal.
  transitivity (concat (map (collectText trim maxDepth false (0 + 1))
                            (map cutAtIndexed cs))).
  - rewrite List.map_map. f_equal. apply List.map_ext. intros n.
    symmetry. apply collectText_cut.
  - rewrite Hcut, List.map_map. f_equal. apply List.map_ext. intros n.
    apply collectText_cut.
Qed.

End Text.

(** The label of the form's wrapper is the same whether or not the
    indexed file field under it has a text of its own. *)
Lemma getAllText_wrapper_label :
  getAllTextTillNextClickableElement (fun text => text) (-1) wrapper
    [DOMTextNode true "Upload"; DOMElementNode fileField [DOMTextNode true "Browse"]]
  = getAllTextTillNextClickableElement (fun text => text) (-1) wrapper
      [DOMTextNode true "Upload"; DOMElementNode fileField []].
Proof. apply getAllText_stops_at_indexed. reflexivity. Defined.

End QueryFacts.

Module HistoryListFacts.
Import Agent AgentHistoryList HistoryShape.

Lemma actionResults_elem (r : ActionResult) (history : list AgentHistory) :
  r ∈ actionResults history <-> exists item, item ∈ history /\ r ∈ result item.
Proof.
  unfold actionResults. rewrite list_elem_of_In, List.in_concat. split.
  - intros (rs & Hrs & Hr). apply List.in_map_iff in Hrs as (item & <- & Hitem).
    exists item. by rewrite !list_elem_of_In.
  - intros (item & Hitem & Hr). exists (result item). split.
    + apply List.in_map. by apply list_elem_of_In.
    + by apply list_elem_of_In.
Qed.

Lemma isDone_elem (history : list AgentHistory) :
  isDone history = true
  <-> exists item r, item ∈ history /\ r ∈ result item /\ Agent.isDone r = true.
Proof.
  unfold isDone. rewrite List.existsb_exists. split.
  - intros (r & Hr & Hdone). apply list_elem_of_In, actionResults_elem in Hr.
    destruct Hr as (item & Hitem & Hr). by exists item, r.
  - intros (item & r & Hitem & Hr & Hdone). exists r. split; [|exact Hdone].
    apply list_elem_of_In, actionResults_elem. by exists item.
Qed.

Lemma finalResultOf_some (results : list ActionResult) (content : string) :
  finalResultOf results = Some content ->
  content <> ""
  /\ exists r, r ∈ results /\ Agent.isDone r = true
               /\ extractedContent r = Some content.
Proof.
  induction results as [|r results IH]; cbn [finalResultOf]; [discriminate|].
  destruct (Agent.isDone r && truthy (extractedContent r)) eqn:Hr.
  - intros Hc. apply andb_true_iff in Hr as [Hdone Htruthy]. split.
    + rewrite Hc in Htruthy. cbn in Htruthy. apply negb_true_iff in Htruthy.
      by apply bool_decide_eq_false in Htruthy.
    + exists r. split; [by left | by split].
  - intros H. destruct (IH H) as (Hne & r' & Hin & Hdone & Hc). split; [exact Hne|].
    exists r'. split; [by right | by split].
Qed.

Lemma finalResultFrom_some (items : list AgentHistory) (content : string) :
  finalResultFrom items = Some content ->
  exists item, item ∈ items /\ finalResultOf (result item) = Some content.
Proof.
  induction items as [|item items IH]; cbn [finalResultFrom]; [discriminate|].
  destruct (finalResultOf (result item)) as [c|] eqn:Hitem.
  - intros [= ->]. exists item. split; [by left | exact Hitem].
  - intros H. destruct (IH H) as (item' & Hin & Hc). exists item'.
    split; [by right | exact Hc].
Qed.

(** X21.  A final result is the non-empty content of a done result of
    some step; so a history with a final result is done. *)
Theorem finalResult_of_done_result (history : list AgentHistory) (content : string) :
  finalResult history = Some content ->
  content <> ""
  /\ isDone history = true
  /\ exists item r, item ∈ history /\ r ∈ result item
                    /\ Agent.isDone r = true /\ extractedContent r = Some content.
Proof.
  intros Hfinal. unfold finalResult in Hfinal.
  apply finalResultFrom_some in Hfinal as (item & Hitem & Hc).
  rewrite elem_of_reverse in Hitem.
  apply finalResultOf_some in Hc as (Hne & r & Hr & Hdone & Hc).
  split; [exact Hne|]. split.
  - apply isDone_elem. exists item, r. repeat split; assumption.
  - exists item, r. repeat split; assumption.
Qed.

Lemma finalResult_of_done_result_page :
  "42 items" <> ""
  /\ isDone [{| result := [infoResult "clicked"] |};
             {| result := [{| Agent.isDone := true; success := Some true;
                              extractedContent := Some "42 items"; error := None;
                              includeInMemory := false |}] |}] = true
  /\ exists item r,
       item ∈ [{| result := [infoResult "clicked"] |};
               {| result := [{| Agent.isDone := true; success := Some true;
                                extractedContent := Some "42 items"; error := None;
                                includeInMemory := false |}] |}]
       /\ r ∈ result item /\ Agent.isDone r = true
       /\ extractedContent r = Some "42 items".
Proof. apply finalResult_of_done_result. reflexivity. Defined.

Lemma isSuccessfulFrom_skip (skipped rest : list AgentHistory) :
  Forall unfinished skipped ->
  isSuccessfulFrom (skipped ++ rest) = isSuccessfulFrom rest.
Proof.
  induction 1 as [|item skipped Hitem _ IH]; [reflexivity|].
  cbn [app isSuccessfulFrom].
  destruct (List.find Agent.isDone (result item)) as [r|] eqn:Hfind; [|exact IH].
  apply List.find_some in Hfind as [Hin Hdone]. unfold unfinished in Hitem.
  rewrite Forall_forall in Hitem.
  rewrite (Hitem r) in Hdone by (by apply list_elem_of_In). discriminate.
Qed.

(** X22.  [isSuccessful] is the [success] of the first done result of
    the latest step that has a done result. *)
Theorem isSuccessful_latest_done
        (before after : list AgentHistory) (item : AgentHistory)
        (pre post : list ActionResult) (r : ActionResult) :
  Forall unfinished after ->
  result item = pre ++ r :: post ->
  Forall (fun r' => Agent.isDone r' = false) pre ->
  Agent.isDone r = true ->
  isSuccessful (before ++ item :: after) = success r
  /\ isDone (before ++ item :: after) = true.
Proof.
  intros Hafter Hitem Hpre Hdone. split.
  - unfold isSuccessful. rewrite reverse_app, reverse_cons, <- app_assoc.
    rewrite isSuccessfulFrom_skip by (by apply Forall_reverse).
    cbn [app isSuccessfulFrom]. rewrite Hitem.
    rewrite (HistoryProofs.find_skips Agent.isDone pre r post); [reflexivity| |exact Hdone].
    intros y Hy. rewrite Forall_forall in Hpre. by apply Hpre.
  - apply isDone_elem. exists item, r. split; [|split; [|exact Hdone]].
    + apply elem_of_app. right. by left.
    + rewrite Hitem. apply elem_of_app. right. by left.
Qed.

(** A run that was done with failure in its second step and went on for
    a third: the verdict is that of the second step. *)
Lemma isSuccessful_latest_done_run :
  isSuccessful
    ([{| result := [infoResult "clicked"] |}]
       ++ {| result := [infoResult "typed";
                        {| Agent.isDone := true; success := Some false;
                           extractedContent := None; error := None;
                           includeInMemory := false |}] |}
       :: [{| result := [errorResult "timeout"] |}])
  = Some false
  /\ isDone
       ([{| result := [infoResult "clicked"] |}]
          ++ {| result := [infoResult "typed";
                           {| Agent.isDone := true; success := Some false;
                              extractedContent := None; error := None;
                              includeInMemory := false |}] |}
          :: [{| result := [errorResult "timeout"] |}])
     = true.
Proof.
  apply (isSuccessful_latest_done
           [{| result := [infoResult "clicked"] |}]
           [{| result := [errorResult "timeout"] |}]
           {| result := [infoResult "typed";
                         {| Agent.isDone := true; success := Some false;
                            extractedContent := None; error := None;
                            includeInMemory := false |}] |}
           [infoResult "typed"] []
           {| Agent.isDone := true; success := Some false;
              extractedContent := None; error := None; includeInMemory := false |}).
  - apply List.Forall_cons; [|apply List.Forall_nil].
    unfold unfinished. cbn. apply List.Forall_cons; [reflexivity | apply List.Forall_nil].
  - reflexivity.
  - apply List.Forall_cons; [reflexivity | apply List.Forall_nil].
  - reflexivity.
Defined.

(** X23.  [hasErrors] holds exactly when some result of some step has a
    non-empty error text. *)
Theorem hasErrors_iff (history : list AgentHistory) :
  hasErrors history = true
  <-> exists item r, item ∈ history /\ r ∈ result item /\ truthy (error r) = true.
Proof.
  unfold hasErrors, errors.
  assert (forall rs : list ActionResult,
            (0 <? Z.of_nat (length (omap error
                 (filter (fun r => truthy (error r) = true) rs)))) = true
            <-> exists r, r ∈ rs /\ truthy (error r) = true) as Hrs.
  { induction rs as [|r rs IH].
    - cbn. split; [discriminate|]. intros (r & Hr & _). by apply elem_of_nil in Hr.
    - rewrite filter_cons. destruct (decide (truthy (error r) = true)) as [Hr|Hr].
      + cbn [omap list_omap]. destruct (error r) as [text|] eqn:Htext; [|discriminate].
        split; [|intros _; cbn [length]; apply Z.ltb_lt; lia].
        intros _. exists r. split; [by left|]. by rewrite Htext.
      + rewrite IH. split.
        * intros (r' & Hin & Hr'). exists r'. split; [by right | exact Hr'].
        * intros (r' & Hin & Hr'). apply elem_of_cons in Hin as [->|Hin]; [done|].
          by exists r'. }
  rewrite Hrs. split.
  - intros (r & Hin & Hr). apply actionResults_elem in Hin as (item & Hitem & Hin).
    by exists item, r.
  - intros (item & r & Hitem & Hin & Hr). exists r. split; [|exact Hr].
    apply actionResults_elem. by exists item.
Qed.

End HistoryListFacts.

Module ReplayFacts.
Import Views HistoryTreeProcessor Agent Replay ReplayShape HistoryProofs.

Section Replay.

Variable _createHash : string -> string.
Variable setIndex : Action -> Z -> Action.

Abbreviation update := (_updateActionIndices _createHash setIndex).
Abbreviation updatedFrom := (updatedActionsFrom _createHash setIndex).

(** What the search answers with is an element that carries an index. *)
Lemma found_is_indexed (h : DOMHistoryElement) (tree : DOMNode) pos node :
  findHistoryElementInTree _createHash h tree = Some (pos, node) ->
  exists e cs, node = DOMElementNode e cs /\ highlightIndex e <> None.
Proof.
  rewrite find_first_match. intros Hfind.
  destruct (List.find _ _) as [[[a p] n]|] eqn:E; [|discriminate].
  cbn in Hfind. injection Hfind as -> ->.
  apply List.find_some in E as [Hin _]. apply list_elem_of_In in Hin.
  destruct (indexedNodes_nodeAt _ _ _ _ _ _ Hin) as (_ & _ & _ & e & cs & -> & Hidx).
  by exists e, cs.
Qed.

Lemma update_none historicalElement action elementTree :
  update historicalElement action elementTree = None
  <-> exists h tree,
        historicalElement = Some h /\ elementTree = Some tree
        /\ findHistoryElementInTree _createHash h tree = None.
Proof.
  unfold _updateActionIndices. split.
  - destruct historicalElement as [h|]; [|discriminate].
    destruct elementTree as [tree|]; [|discriminate].
    destruct (findHistoryElementInTree _createHash h tree) as [[pos node]|] eqn:Hfind.
    + destruct (found_is_indexed _ _ _ _ Hfind) as (e & cs & -> & Hidx).
      destruct (highlightIndex e) as [newIndex|]; [|done].
      destruct (getIndex action) as [[oldIndex|]|]; [|discriminate..].
      case_bool_decide; discriminate.
    + intros _. by exists h, tree.
  - intros (h & tree & -> & -> & Hfind). by rewrite Hfind.
Qed.

(** X24.  [_updateActionIndices] answers [null] exactly when there is a
    historical element and a tree and the search finds nothing: an
    element that is found always carries an index. *)
Theorem updateActionIndices_null
        (historicalElement : option DOMHistoryElement) (action : Action)
        (elementTree : option DOMNode) :
  update historicalElement action elementTree = None
  <-> exists h tree,
        historicalElement = Some h /\ elementTree = Some tree
        /\ findHistoryElementInTree _createHash h tree = None.
Proof. apply update_none. Qed.

(** The record of an indexed node of the tree finds a node. *)
Lemma recorded_found tree pos ancestors e cs :
  nodeAt [] tree pos = Some (ancestors, DOMElementNode e cs) ->
  highlightIndex e <> None ->
  findHistoryElementInTree _createHash
    (convertDomElementToHistoryElement ancestors e) tree <> None.
Proof.
  intros Hat Hidx Hnone.
  pose proof (nodeAt_indexedNodes tree [] [] pos ancestors e cs Hat Hidx) as Hin.
  rewrite find_first_match, hash_of_converted in Hnone.
  destruct (List.find _ _) eqn:Hfind; [discriminate|].
  pose proof (List.find_none _ _ Hfind _ (proj1 (list_elem_of_In _ _) Hin)) as Hm.
  cbn [matchesAt] in Hm. by rewrite sameHashes_refl in Hm.
Qed.

Lemma update_recorded tree record action :
  recordedOn tree record ->
  exists updatedAction,
    update record action (Some tree) = Some updatedAction
    /\ (getIndex action = None -> updatedAction = action).
Proof.
  intros Hrec. destruct (update record action (Some tree)) as [updatedAction|] eqn:Hup.
  - exists updatedAction. split; [reflexivity|]. intros Hget.
    unfold _updateActionIndices in Hup. rewrite Hget in Hup.
    destruct record as [h|]; [|congruence].
    destruct (findHistoryElementInTree _createHash h tree) as [[pos [v t|e cs]]|];
      [discriminate| |discriminate].
    destruct (highlightIndex e); congruence.
  - apply update_none in Hup as (h & tree' & -> & [= <-] & Hnone).
    destruct Hrec as (pos & ancestors & e & cs & Hat & Hidx & ->).
    by destruct (recorded_found _ _ _ _ _ Hat Hidx).
Qed.

(** With an array of records handed over by position, each of them
    the record of an indexed node of the tree, the loop updates every
    action, and an action without [getIndex] stays as it is. *)
Lemma updatedFrom_recorded tree elements actions :
  Forall (recordedOn tree) elements ->
  forall i,
    exists updatedActions,
      updatedFrom {| url := None; interactedElement := Some (Elements elements) |}
                  (Some tree) actions i
      = Updated updatedActions
      /\ length updatedActions = length actions
      /\ forall k action,
           actions !! k = Some action -> getIndex action = None ->
           updatedActions !! k = Some action.
Proof.
  intros Hrec. induction actions as [|action actions IH]; intros i.
  - exists []. repeat split. intros k action Hk. by rewrite lookup_nil in Hk.
  - cbn [updatedActionsFrom]. unfold interactedElementAt. cbn [interactedElement].
    assert (recordedOn tree (mjoin (elements !! i))) as Hi.
    { destruct (elements !! i) as [record|] eqn:Hlook; [|exact I].
      rewrite Forall_lookup in Hrec. exact (Hrec i record Hlook). }
    destruct (update_recorded tree _ action Hi) as (updatedAction & -> & Hsame).
    destruct (IH (S i)) as (rest & Hrest & Hlen & Hkeep).
    unfold interactedElementAt in Hrest. cbn [interactedElement] in Hrest.
    rewrite Hrest.
    exists (updatedAction :: rest). split; [reflexivity|]. split.
    + cbn [length]. by rewrite Hlen.
    + intros [|k] a Hk Hget.
      * cbn in Hk. injection Hk as <-. cbn. by rewrite (Hsame Hget).
      * cbn in Hk |- *. by apply Hkeep.
Qed.

(** X25.  A history item whose state was built from a single argument,
    as [_makeHistoryItem] and [loadFromFile] build it, cannot be run
    again: the constructor binds the options object to [url], the
    [interactedElement] of the state is [undefined], and the loop of
    [_executeHistoryStep] ends on its first action with the [TypeError]
    of the read [interactedElement[0]], whatever the page is, before
    any action is updated or handed to [multiAct]. *)
Theorem replay_of_built_item_throws
        (argument : Argument) (interactedElements : list (option DOMHistoryElement))
        (elementTree : option DOMNode) (action : Action) (actions : list Action) :
  interactedElement (stateOfHistoryItem interactedElements) = None
  /\ url (stateOfHistoryItem interactedElements) = Some (Options interactedElements)
  /\ updatedFrom (stateOfHistoryItem interactedElements) elementTree
                 (action :: actions) O
     = ReadThrew
  /\ updatedFrom (newBrowserStateHistory [argument]) elementTree (action :: actions) O
     = ReadThrew.
Proof. repeat split. Qed.

End Replay.

(** A step that clicked the button of the form and then scrolled, run
    again on the form's page: with the records handed over by position
    both actions pass; with the state as [_makeHistoryItem] builds it
    the loop throws. *)
Example replay_form_step :
  updatedActionsFrom (fun input => input) (fun action _ => action)
    {| url := None;
       interactedElement :=
         Some (Elements [Some (convertDomElementToHistoryElement
                                 [bareRoot; formElement] formButton); None]) |}
    (Some formTree)
    [DynamicActionModel "click_element" "{index: 1}";
     DynamicActionModel "scroll_down" "{}"] O
  = Updated [DynamicActionModel "click_element" "{index: 1}";
             DynamicActionModel "scroll_down" "{}"]
  /\ updatedActionsFrom (fun input => input) (fun action _ => action)
       (stateOfHistoryItem
          [Some (convertDomElementToHistoryElement [bareRoot; formElement] formButton);
           None])
       (Some formTree)
       [DynamicActionModel "click_element" "{index: 1}";
        DynamicActionModel "scroll_down" "{}"] O
     = ReadThrew.
Proof. split; vm_compute; reflexivity. Qed.

End ReplayFacts.
